(** * Resilience core of the Gin service: circuit breaker, retry, token
    bucket and worker pool

    A shallow embedding of [pkg/resilience/circuit_breaker.go] and
    [internal/worker/worker.go].  Go values are modelled as follows.

    - [int], [time.Duration]: 64-bit signed integers, as [Z] with the
      wrap-around of the machine operation written out ([wrap64]);
      [uint] as [Z] modulo [2^64].
    - [time.Time]: nanoseconds since the zero [Time], as [Z];
      [Time.Sub] saturates to the range of [Duration], as package [time]
      does.
    - [float64]: the kernel's binary64 floats ([PrimFloat]).
    - [error]: [option string], [None] being [nil].
    - a panic: the [Panic] constructor of [outcome].
    - a [func() error] closure: a state transformer on a world [W] that the
      closure may read and change. *)

From Stdlib Require Import ZArith List Bool Lia.
From Stdlib Require Import Floats.PrimFloat Floats.SpecFloat Floats.FloatOps.
From Stdlib Require Import QArith Qminmax Qround.
From stdpp Require Import base strings gmap.
Import ListNotations.

Local Open Scope Z_scope.

(** ** Go runtime values *)

Module Go.

(** A Go [error] value; [None] is [nil]. *)
Definition error : Type := option string.

(** Result of running code that may panic. *)
Inductive outcome (A : Type) : Type :=
| Ret (a : A)
| Panic (v : string).
Arguments Ret {A} a.
Arguments Panic {A} v.

Definition bind {A B} (m : outcome A) (k : A -> outcome B) : outcome B :=
  match m with
  | Ret a => k a
  | Panic v => Panic v
  end.

Definition min_int64 : Z := - 2 ^ 63.
Definition max_int64 : Z := 2 ^ 63 - 1.

Definition int64_range (z : Z) : Prop := min_int64 <= z <= max_int64.

(** Two's complement wrap-around of [int] and [int64] arithmetic. *)
Definition wrap64 (z : Z) : Z := (z + 2 ^ 63) mod 2 ^ 64 - 2 ^ 63.

(** Wrap-around of [uint] arithmetic. *)
Definition wrapu64 (z : Z) : Z := z mod 2 ^ 64.

(** [time.Duration]: an [int64] count of nanoseconds. *)
Definition Duration : Type := Z.

Definition Nanosecond : Duration := 1.
Definition Millisecond : Duration := 1000000.
Definition Second : Duration := 1000000000.

(** [time.Time] as nanoseconds since the zero [Time]. *)
Definition Time : Type := Z.

Definition zeroTime : Time := 0.

(** [t.Sub(u)]: the difference, saturated to the range of [Duration]. *)
Definition Sub (t u : Time) : Duration :=
  Z.max min_int64 (Z.min max_int64 (t - u)).

(** [float64(d)] for an [int64] [d]: round to nearest, ties to even. *)
Definition float64_of_int64 (d : Z) : float :=
  SF2Prim (binary_normalize prec emax d 0 false).

(** The value a float-to-integer conversion yields when the truncated
    value is not an [int64] (NaN, infinities, out of range).  Go leaves it
    implementation-dependent; this is what amd64 produces. *)
Definition int64_indefinite : Z := min_int64.

(** [int64(f)]: truncation toward zero. *)
Definition int64_of_float64 (f : float) : Z :=
  match Prim2SF f with
  | S754_zero _ => 0
  | S754_finite s m e =>
      let mag := if 0 <=? e then Z.pos m * 2 ^ e else Z.pos m / 2 ^ (- e) in
      let v := if s then - mag else mag in
      if (min_int64 <=? v) && (v <=? max_int64) then v else int64_indefinite
  | S754_infinity _ => int64_indefinite
  | S754_nan => int64_indefinite
  end.

End Go.

Import Go.

(** ** pkg/resilience *)

Module Resilience.

(** *** Token bucket rate limiter *)

Record RateLimiter : Type := mkRateLimiter {
  tokens : Z;
  maxTokens : Z;
  refillRate : Duration;
  lastRefillTime : Time
}.

(** [NewRateLimiter(maxTokens, refillRate)], called when the clock reads
    [now]. *)
Definition NewRateLimiter (maxTokens : Z) (refillRate : Duration)
    (now : Time) : RateLimiter :=
  {| tokens := maxTokens;
     maxTokens := maxTokens;
     refillRate := refillRate;
     lastRefillTime := now |}.

(** The refill step of [Allow]: the limiter just before the token check.
    [elapsed / rl.refillRate] is Go's truncating division. *)
Definition refill (rl : RateLimiter) (now : Time) : RateLimiter :=
  let elapsed := Sub now (lastRefillTime rl) in
  let tokensToAdd := wrap64 (Z.quot elapsed (refillRate rl)) in
  if 0 <? tokensToAdd then
    let t := wrap64 (tokens rl + tokensToAdd) in
    let t := if maxTokens rl <? t then maxTokens rl else t in
    {| tokens := t;
       maxTokens := maxTokens rl;
       refillRate := refillRate rl;
       lastRefillTime := now |}
  else rl.

(** [rl.Allow()] when [time.Now()] returns [now].  A zero [refillRate]
    makes the division panic. *)
Definition Allow (rl : RateLimiter) (now : Time) : outcome (bool * RateLimiter) :=
  if refillRate rl =? 0 then Panic "runtime error: integer divide by zero"
  else
    let rl1 := refill rl now in
    if 0 <? tokens rl1 then
      Ret (true,
           {| tokens := wrap64 (tokens rl1 - 1);
              maxTokens := maxTokens rl1;
              refillRate := refillRate rl1;
              lastRefillTime := lastRefillTime rl1 |})
    else Ret (false, rl1).

(** A run of [Allow] calls at the given clock readings: the answers, in
    order, and the limiter after each call. *)
Fixpoint Allow_run (rl : RateLimiter) (nows : list Time)
    : outcome (list (bool * RateLimiter)) :=
  match nows with
  | [] => Ret []
  | now :: rest =>
      bind (Allow rl now) (fun r =>
      bind (Allow_run (snd r) rest) (fun rs => Ret (r :: rs)))
  end.


(** The refill rule of the specification: [last_refill] advances by the
    whole intervals consumed, not to [now]. *)
Definition spec_last_refill (rl : RateLimiter) (now : Time) : Time :=
  lastRefillTime rl + (now - lastRefillTime rl) / refillRate rl * refillRate rl.

(** *** Circuit breaker *)

Inductive CircuitState : Type :=
| StateClosed
| StateOpen
| StateHalfOpen.

Definition CircuitState_eqb (a b : CircuitState) : bool :=
  match a, b with
  | StateClosed, StateClosed
  | StateOpen, StateOpen
  | StateHalfOpen, StateHalfOpen => true
  | _, _ => false
  end.

Record CircuitBreaker : Type := mkCircuitBreaker {
  maxFailures : Z;
  resetTimeout : Duration;
  state : CircuitState;
  failures : Z;
  lastFailTime : Time
}.

Definition NewCircuitBreaker (maxFailures : Z) (resetTimeout : Duration)
    : CircuitBreaker :=
  {| maxFailures := maxFailures;
     resetTimeout := resetTimeout;
     state := StateClosed;
     failures := 0;
     lastFailTime := zeroTime |}.

Definition set_state (cb : CircuitBreaker) (s : CircuitState) : CircuitBreaker :=
  {| maxFailures := maxFailures cb;
     resetTimeout := resetTimeout cb;
     state := s;
     failures := failures cb;
     lastFailTime := lastFailTime cb |}.

Definition errCircuitOpen : error := Some "circuit breaker is open"%string.

(** [cb.GetState()]. *)
Definition GetState (cb : CircuitBreaker) : CircuitState := state cb.

(** [cb.Reset()]. *)
Definition Reset (cb : CircuitBreaker) : CircuitBreaker :=
  {| maxFailures := maxFailures cb;
     resetTimeout := resetTimeout cb;
     state := StateClosed;
     failures := 0;
     lastFailTime := lastFailTime cb |}.

(** *** Retry configuration *)

Record RetryConfig : Type := mkRetryConfig {
  MaxAttempts : Z;
  InitialDelay : Duration;
  MaxDelay : Duration;
  BackoffMultiplier : float
}.

Definition DefaultRetryConfig : RetryConfig :=
  {| MaxAttempts := 3;
     InitialDelay := 100 * Millisecond;
     MaxDelay := 5 * Second;
     BackoffMultiplier := 2%float |}.

(** [time.Duration(float64(delay) * config.BackoffMultiplier)]. *)
Definition scaleDelay (delay : Duration) (multiplier : float) : Duration :=
  int64_of_float64 (float64_of_int64 delay * multiplier)%float.

(** The delay after a completed wait: scaled, then capped at [MaxDelay]. *)
Definition nextDelay (config : RetryConfig) (delay : Duration) : Duration :=
  let d := scaleDelay delay (BackoffMultiplier config) in
  if MaxDelay config <? d then MaxDelay config else d.

(** What [Retry] did, in order. *)
Inductive event : Type :=
| Attempt (err : error)          (* one call of [fn] and what it returned *)
| Sleep (d : Duration)           (* [time.After(d)] fired *)
| Cancelled (d : Duration).      (* [ctx.Done()] fired while waiting for [d] *)

(** The calls of [fn] in a trace, and the completed sleeps. *)
Definition attempts (tr : list event) : list error :=
  flat_map (fun e => match e with Attempt r => [r] | _ => [] end) tr.

Definition sleeps (tr : list event) : list Duration :=
  flat_map (fun e => match e with Sleep d => [d] | _ => [] end) tr.

Section World.

(** The world a closure runs in: whatever it reads and writes, and the
    clock. *)
Variable W : Type.
Variable clock : W -> Time.

(** A [func() error]. *)
Definition op : Type := W -> W * error.

(** [time.Since(t)]. *)
Definition Since (w : W) (t : Time) : Duration := Sub (clock w) t.

(** The admission gate of [Execute]: [None] when the call is rejected,
    otherwise the breaker with which [fn] is run. *)
Definition admission (cb : CircuitBreaker) (w : W) : option CircuitBreaker :=
  if CircuitState_eqb (state cb) StateOpen then
    if resetTimeout cb <? Since w (lastFailTime cb)
    then Some (set_state cb StateHalfOpen)
    else None
  else Some cb.

(** The bookkeeping of [Execute] after [fn] returned [err] in world [w]. *)
Definition record_result (cb : CircuitBreaker) (w : W) (err : error)
    : CircuitBreaker :=
  match err with
  | Some _ =>
      let f := wrapu64 (failures cb + 1) in
      {| maxFailures := maxFailures cb;
         resetTimeout := resetTimeout cb;
         state := if maxFailures cb <=? f then StateOpen else state cb;
         failures := f;
         lastFailTime := clock w |}
  | None =>
      {| maxFailures := maxFailures cb;
         resetTimeout := resetTimeout cb;
         state := if CircuitState_eqb (state cb) StateHalfOpen
                  then StateClosed else state cb;
         failures := 0;
         lastFailTime := lastFailTime cb |}
  end.

(** [cb.Execute(fn)] for a single caller: the breaker and the world
    after the call, and the returned error. *)
Definition Execute (cb : CircuitBreaker) (fn : op) (w : W)
    : CircuitBreaker * W * error :=
  match admission cb w with
  | None => (cb, w, errCircuitOpen)
  | Some cb1 =>
      let '(w1, err) := fn w in
      (record_result cb1 w1 err, w1, err)
  end.

(** A [context.Context] as [Retry] uses it.  [ctx_Err w] is [ctx.Err()]
    in world [w].  [ctx_wait d w] is the [select] between
    [time.After(d)] and [ctx.Done()]: the world when it returns, and
    [true] when the timer fired. *)
Record Context : Type := mkContext {
  ctx_Err : W -> error;
  ctx_wait : Duration -> W -> W * bool
}.

(** The cancel signal of [ctx] never fires. *)
Definition never_cancelled (ctx : Context) : Prop :=
  (forall w, ctx_Err ctx w = None) /\
  (forall d w, snd (ctx_wait ctx d w) = true).

(** The [for] loop of [Retry], entered at its condition with the loop
    variables [attempt], [delay], [err]; [tr] is what happened so far.
    Each iteration uses one unit of [fuel]; [None] is fuel exhausted. *)
Fixpoint Retry_loop (ctx : Context) (config : RetryConfig) (fn : op)
    (fuel : nat) (attempt : Z) (delay : Duration) (err : error)
    (w : W) (tr : list event) : option (W * error * list event) :=
  match fuel with
  | O => None
  | S fuel' =>
      if attempt <=? MaxAttempts config then
        let '(w1, err1) := fn w in
        let tr1 := tr ++ [Attempt err1] in
        match err1 with
        | None => Some (w1, None, tr1)
        | Some _ =>
            match ctx_Err ctx w1 with
            | Some c => Some (w1, Some c, tr1)
            | None =>
                if attempt =? MaxAttempts config then Some (w1, err1, tr1)
                else
                  let '(w2, fired) := ctx_wait ctx delay w1 in
                  if fired then
                    Retry_loop ctx config fn fuel' (wrap64 (attempt + 1))
                      (nextDelay config delay) err1 w2 (tr1 ++ [Sleep delay])
                  else Some (w2, ctx_Err ctx w2, tr1 ++ [Cancelled delay])
            end
        end
      else Some (w, err, tr)
  end.

(** [Retry(ctx, config, fn)]: the world afterwards, the returned error
    and the trace.  The loop runs at most [MaxAttempts] iterations and
    tests its condition once more at most. *)
Definition Retry (ctx : Context) (config : RetryConfig) (fn : op) (w : W)
    : option (W * error * list event) :=
  Retry_loop ctx config fn (S (Z.to_nat (MaxAttempts config))) 1
    (InitialDelay config) None w [].

End World.

Arguments op W : clear implicits.
Arguments Since {W} clock w t.
Arguments admission {W} clock cb w.
Arguments record_result {W} clock cb w err.
Arguments Execute {W} clock cb fn w.
Arguments Context W : clear implicits.
Arguments mkContext {W} ctx_Err ctx_wait.
Arguments ctx_Err {W} c w.
Arguments ctx_wait {W} c d w.
Arguments never_cancelled {W} ctx.
Arguments Retry_loop {W} ctx config fn fuel attempt delay err w tr.
Arguments Retry {W} ctx config fn w.

(** The world in which [fn] is called for the [(k+1)]-th time by a run of
    the loop that starts in [w] with delay [delay], given that the calls
    before it failed and each was followed by a wait: [fn] ran, then the
    wait for the delay of that round. *)
Fixpoint world_before {W : Type} (ctx : Context W) (config : RetryConfig)
    (fn : op W) (w : W) (delay : Duration) (k : nat) : W :=
  match k with
  | O => w
  | S k' =>
      fst (ctx_wait ctx (Nat.iter k' (nextDelay config) delay)
             (fst (fn (world_before ctx config fn w delay k'))))
  end.

(** The world after the first [k] waits of a run of the loop in which
    nothing but the waits changes the world: it starts in [w] with delay
    [delay], and every wait runs to its end. *)
Fixpoint world_after_waits {W : Type} (ctx : Context W) (config : RetryConfig)
    (w : W) (delay : Duration) (k : nat) : W :=
  match k with
  | O => w
  | S k' =>
      fst (ctx_wait ctx (Nat.iter k' (nextDelay config) delay)
             (world_after_waits ctx config w delay k'))
  end.

(** A concrete world for running the model: a clock and a count of the
    calls made to the operation. *)
Record Sim : Type := mkSim {
  sim_clock : Time;
  sim_calls : Z
}.

(** An operation that takes a millisecond and fails while fewer than
    [failing] calls were made. *)
Definition flaky (failing : Z) : op Sim := fun w =>
  ({| sim_clock := sim_clock w + Millisecond; sim_calls := sim_calls w + 1 |},
   if sim_calls w <? failing then Some "boom"%string else None).

(** An operation that takes a millisecond and always fails. *)
Definition failing_op : op Sim := fun w =>
  ({| sim_clock := sim_clock w + Millisecond; sim_calls := sim_calls w + 1 |},
   Some "boom"%string).


(** [context.Background()]: never done; a wait lasts its full delay. *)
Definition Background : Context Sim :=
  {| ctx_Err := fun _ => None;
     ctx_wait := fun d w =>
       ({| sim_clock := sim_clock w + Z.max 0 d; sim_calls := sim_calls w |}, true) |}.

(** The trace of a run in which [fn] returned [rs], in order, and every
    wait ran to its end: a sleep between consecutive attempts, starting
    with [delay] and following [nextDelay]; nothing after the last
    attempt. *)
Fixpoint backoff_trace (config : RetryConfig) (rs : list error)
    (delay : Duration) : list event :=
  match rs with
  | [] => []
  | r :: rest =>
      Attempt r ::
      match rest with
      | [] => []
      | _ :: _ => Sleep delay :: backoff_trace config rest (nextDelay config delay)
      end
  end.

(** The exact rational value of a finite float; zero for the others. *)
Definition Q_of_float (f : float) : Q :=
  match Prim2SF f with
  | S754_finite s m e =>
      ((if s then Z.neg m else Z.pos m) # 1) * Qpower (2 # 1) e
  | _ => 0%Q
  end.

(** The delay before attempt [k + 2] as the specification gives it:
    [min(D_max, D_0 * beta^k)]. *)
Definition spec_delay (config : RetryConfig) (k : nat) : Q :=
  Qmin (inject_Z (MaxDelay config))
       (inject_Z (InitialDelay config)
        * Qpower (Q_of_float (BackoffMultiplier config)) (Z.of_nat k)).

(** An operation that fails whenever it is called. *)
Definition always_fails {W : Type} (fn : op W) : Prop :=
  forall w, snd (fn w) <> None.

(** The sum of a list of durations. *)
Definition total (ds : list Duration) : Duration := fold_right Z.add 0 ds.

(** The number of calls a run of [Allow] let through. *)
Definition granted (rs : list (bool * RateLimiter)) : nat :=
  length (List.filter (fun r => fst r) rs).

(** A run of [Execute] calls with the same operation, the [i]-th call
    starting in the [i]-th world of [ws]: the breaker afterwards, and for
    each call the world it left and the error it returned. *)
Fixpoint Execute_run {W : Type} (clock : W -> Time) (cb : CircuitBreaker)
    (fn : op W) (ws : list W) : CircuitBreaker * list (W * error) :=
  match ws with
  | [] => (cb, [])
  | w :: rest =>
      let '(cb1, w1, err) := Execute clock cb fn w in
      let '(cb2, rs) := Execute_run clock cb1 fn rest in
      (cb2, (w1, err) :: rs)
  end.

(** The breaker as an observer sees it between calls: everything but
    [lastFailTime], which [Execute] reads in state [StateOpen] only. *)
Definition same_gate (a b : CircuitBreaker) : Prop :=
  maxFailures a = maxFailures b /\
  resetTimeout a = resetTimeout b /\
  state a = state b /\
  failures a = failures b /\
  (state a = StateClosed \/ lastFailTime a = lastFailTime b).

(** The breaker at rest, between the calls of a single caller: it is not
    half-open, and it is open only with the threshold reached. *)
Definition at_rest (cb : CircuitBreaker) : Prop :=
  state cb <> StateHalfOpen /\
  (state cb = StateOpen -> maxFailures cb <= failures cb) /\
  0 <= failures cb.

Section Composition.

Context {W : Type} (clock : W -> Time).

(** The [for] loop of [rl.Wait(ctx)]: each iteration calls [Allow] with the
    clock of the world and, when refused, waits for [rl.refillRate] or for
    [ctx.Done()].  The loop has no bound of its own: [None] says that after
    [fuel] iterations it is still running. *)
Fixpoint Wait_loop (ctx : Context W) (fuel : nat) (rl : RateLimiter) (w : W)
    : option (outcome (RateLimiter * W * error)) :=
  match fuel with
  | O => None
  | S fuel' =>
      match Allow rl (clock w) with
      | Panic v => Some (Panic v)
      | Ret (true, rl1) => Some (Ret (rl1, w, None))
      | Ret (false, rl1) =>
          let '(w1, fired) := ctx_wait ctx (refillRate rl1) w in
          if fired then Wait_loop ctx fuel' rl1 w1
          else Some (Ret (rl1, w1, ctx_Err ctx w1))
      end
  end.

(** The closure [func() error { return cb.Execute(fn) }]: the breaker is
    part of the world it runs in. *)
Definition guarded (fn : op W) : op (CircuitBreaker * W) :=
  fun '(cb, w) =>
    let '(cb1, w1, err) := Execute clock cb fn w in
    ((cb1, w1), err).

(** The context of the caller, seen from that world. *)
Definition with_breaker (ctx : Context W) : Context (CircuitBreaker * W) :=
  {| ctx_Err := fun '(_, w) => ctx_Err ctx w;
     ctx_wait := fun d '(cb, w) =>
       let '(w1, fired) := ctx_wait ctx d w in ((cb, w1), fired) |}.

(** [RetryWithCircuitBreaker(ctx, cb, config, fn)]. *)
Definition RetryWithCircuitBreaker (ctx : Context W) (cb : CircuitBreaker)
    (config : RetryConfig) (fn : op W) (w : W)
    : option (CircuitBreaker * W * error * list event) :=
  Retry (with_breaker ctx) config (guarded fn) (cb, w).


End Composition.

End Resilience.

(** ** internal/worker *)

Module Worker.

#[local] Set Warnings "-register-all".

(** An [interface{}] payload, as far as the handlers inspect it. *)
Inductive iface : Type :=
| INil
| IString (s : string)
| IInt (z : Z)
| IMap (m : list (string * iface)).

(** [m[key]] on a [map[string]interface{}]: a missing key gives [nil]. *)
Fixpoint map_index (m : list (string * iface)) (key : string) : iface :=
  match m with
  | [] => INil
  | (k, v) :: rest => if String.eqb k key then v else map_index rest key
  end.

(** [v.(string)]: the one-result type assertion panics on any other
    dynamic type, and the panic names that type. *)
Definition assert_string (v : iface) : outcome string :=
  match v with
  | IString s => Ret s
  | INil => Panic "interface conversion: interface {} is nil, not string"
  | IInt _ => Panic "interface conversion: interface {} is int, not string"
  | IMap _ =>
      Panic "interface conversion: interface {} is map[string]interface {}, not string"
  end.

Record Job : Type := mkJob {
  ID : string;
  Type_ : string;
  Payload : iface;
  CreatedAt : Time;
  Status : string;
  Error : error
}.

Definition set_result (job : Job) (status : string) (err : error) : Job :=
  {| ID := ID job;
     Type_ := Type_ job;
     Payload := Payload job;
     CreatedAt := CreatedAt job;
     Status := status;
     Error := err |}.

(** [JobHandler.Handle(ctx, job)]: the job as the handler leaves it, and
    the returned error or the panic it raised.  No handler of the package
    reads [ctx]. *)
Definition JobHandler : Type := Job -> Job * outcome error.

(** A buffered [chan *Job]; a [nil] pointer is [None]. *)
Record Chan : Type := mkChan {
  buf : list (option Job);
  cap : nat;
  closed : bool
}.

(** A [Worker].  Its [jobQueue] and [handlers] fields alias the pool's
    channel and map, so the worker functions below take them from the
    pool; [quit] is a channel that is only ever closed. *)
Record Worker : Type := mkWorker {
  id : Z;
  quit_closed : bool
}.

Record WorkerPool : Type := mkWorkerPool {
  workers : list (option Worker);
  jobQueue : Chan;
  handlers : gmap string JobHandler;
  pool_quit_closed : bool;
  isRunning : bool
}.

(** [NewWorkerPool(workerCount)]; [make] panics on a negative length. *)
Definition NewWorkerPool (workerCount : Z) : outcome WorkerPool :=
  if workerCount <? 0 then Panic "runtime error: makeslice: len out of range"
  else Ret {| workers := repeat None (Z.to_nat workerCount);
              jobQueue := {| buf := []; cap := 100; closed := false |};
              handlers := ∅;
              pool_quit_closed := false;
              isRunning := false |}.

Definition RegisterHandler (wp : WorkerPool) (jobType : string)
    (handler : JobHandler) : WorkerPool :=
  {| workers := workers wp;
     jobQueue := jobQueue wp;
     handlers := <[jobType := handler]> (handlers wp);
     pool_quit_closed := pool_quit_closed wp;
     isRunning := isRunning wp |}.

(** The workers [Start] creates: ids [1 .. len(wp.workers)], each with a
    fresh open [quit] channel. *)
Definition fresh_workers (n : nat) : list (option Worker) :=
  map (fun i => Some {| id := Z.of_nat i + 1; quit_closed := false |}) (seq 0 n).

(** [wp.Start()]. *)
Definition Start (wp : WorkerPool) : WorkerPool :=
  if isRunning wp then wp
  else {| workers := fresh_workers (length (workers wp));
          jobQueue := jobQueue wp;
          handlers := handlers wp;
          pool_quit_closed := pool_quit_closed wp;
          isRunning := true |}.

(** [close(ch)] on a channel without buffer that is only closed. *)
Definition close_signal (is_closed : bool) : outcome bool :=
  if is_closed then Panic "close of closed channel" else Ret true.

(** [worker.stop()] through a [*Worker]. *)
Definition stop (w : option Worker) : outcome (option Worker) :=
  match w with
  | None => Panic "runtime error: invalid memory address or nil pointer dereference"
  | Some wk =>
      bind (close_signal (quit_closed wk)) (fun c =>
      Ret (Some {| id := id wk; quit_closed := c |}))
  end.

Fixpoint stop_all (ws : list (option Worker)) : outcome (list (option Worker)) :=
  match ws with
  | [] => Ret []
  | w :: rest =>
      bind (stop w) (fun w' =>
      bind (stop_all rest) (fun rest' => Ret (w' :: rest')))
  end.

Definition close_chan (ch : Chan) : outcome Chan :=
  if closed ch then Panic "close of closed channel"
  else Ret {| buf := buf ch; cap := cap ch; closed := true |}.

Definition errNotRunning : error := Some "worker pool is not running"%string.
Definition errQueueFull : error := Some "job queue is full"%string.

(** The [select] of [Submit]: a send that does not wait.  [None] is the
    [default] branch. *)
Definition try_send (ch : Chan) (job : option Job) : outcome (option Chan) :=
  if closed ch then Panic "send on closed channel"
  else if (length (buf ch) <? cap ch)%nat
  then Ret (Some {| buf := buf ch ++ [job]; cap := cap ch; closed := false |})
  else Ret None.

(** A receive [<-ch] that does not have to wait: the head of the buffer,
    or the zero value, a [nil] job, once the channel is closed and empty.
    [None] when the receiver would block. *)
Definition try_recv (ch : Chan) : option (option Job * Chan) :=
  match buf ch with
  | job :: rest => Some (job, {| buf := rest; cap := cap ch; closed := closed ch |})
  | [] => if closed ch then Some (None, ch) else None
  end.

(** [wp.Submit(job)]. *)
Definition Submit (wp : WorkerPool) (job : option Job) : outcome (WorkerPool * error) :=
  if negb (isRunning wp) then Ret (wp, errNotRunning)
  else
    bind (try_send (jobQueue wp) job) (fun r =>
    match r with
    | Some ch =>
        Ret ({| workers := workers wp;
                jobQueue := ch;
                handlers := handlers wp;
                pool_quit_closed := pool_quit_closed wp;
                isRunning := isRunning wp |}, None)
    | None => Ret (wp, errQueueFull)
    end).

(** [w.executeJob(job)]: the job afterwards, and whether the call
    returned or panicked. *)
Definition executeJob (hs : gmap string JobHandler) (job : option Job)
    : option Job * outcome unit :=
  match job with
  | None => (None, Panic "runtime error: invalid memory address or nil pointer dereference")
  | Some j =>
      match hs !! Type_ j with
      | None =>
          (Some (set_result j "failed"
                   (Some ("no handler for job type: " +:+ Type_ j))), Ret tt)
      | Some handler =>
          match handler j with
          | (j1, Panic v) => (Some j1, Panic v)
          | (j1, Ret (Some e)) => (Some (set_result j1 "failed" (Some e)), Ret tt)
          | (j1, Ret None) => (Some (set_result j1 "completed" (Error j1)), Ret tt)
          end
      end
  end.

(** What one round of the [select] in [start] receives.  A receive from
    the closed, empty queue yields a [nil] job. *)
Inductive selected : Type :=
| GotJob (job : option Job)
| GotQuit.

(** How the goroutine of [start] stands after a run. *)
Inductive exit : Type :=
| Returned                    (* [quit] was selected *)
| Crashed (v : string)        (* a panic left [start] *)
| Waiting.                    (* blocked in the [select] *)

(** [w.start()] against the sequence of things its [select] receives:
    the jobs handed to [executeJob], as it left them, and how the loop
    stands. *)
Fixpoint start (hs : gmap string JobHandler) (script : list selected)
    : list (option Job) * exit :=
  match script with
  | [] => ([], Waiting)
  | GotQuit :: _ => ([], Returned)
  | GotJob job :: rest =>
      match executeJob hs job with
      | (j, Panic v) => ([j], Crashed v)
      | (j, Ret _) => let '(js, e) := start hs rest in (j :: js, e)
      end
  end.

(** The number of queued jobs that the workers receive while [Stop] waits
    for them, when the schedule lets them receive [taken] at most: a pool
    without workers receives none, and no more can be received than are
    queued. *)
Definition received (wp : WorkerPool) (taken : nat) : nat :=
  match workers wp with
  | [] => O
  | _ :: _ => Nat.min taken (length (buf (jobQueue wp)))
  end.

(** [wp.Stop()].  Between [close(wp.quit)], the [worker.stop()] calls and
    the return of [wp.wg.Wait()] the workers go on receiving from the
    queue: each [select] of a worker that finds a job and its quit signal
    takes either.  [taken] bounds the number of queued jobs they receive,
    in queue order, before every worker has taken its quit signal.  Those
    jobs are executed; a panic in one of them is not recovered and ends
    the program, which is reported as the panic of [Stop].  What is left
    stays in the queue, which [Stop] then closes.  [Submit] cannot add to
    the queue meanwhile: [Stop] holds [wp.mu]. *)
Definition Stop (wp : WorkerPool) (taken : nat) : outcome WorkerPool :=
  if negb (isRunning wp) then Ret wp
  else
    bind (close_signal (pool_quit_closed wp)) (fun q =>
    bind (stop_all (workers wp)) (fun ws =>
    match start (handlers wp)
            (map GotJob (firstn (received wp taken) (buf (jobQueue wp)))
               ++ [GotQuit]) with
    | (_, Crashed v) => Panic v
    | (_, _) =>
        bind (close_chan {| buf := skipn (received wp taken) (buf (jobQueue wp));
                            cap := cap (jobQueue wp);
                            closed := closed (jobQueue wp) |}) (fun ch =>
        Ret {| workers := ws;
               jobQueue := ch;
               handlers := handlers wp;
               pool_quit_closed := q;
               isRunning := false |})
    end)).

(** [EmailJobHandler.Handle]; logging and the simulated delay are left
    out. *)
Definition EmailJobHandler : JobHandler := fun job =>
  match Payload job with
  | IMap payload =>
      (job,
       bind (assert_string (map_index payload "to")) (fun _ =>
       bind (assert_string (map_index payload "subject")) (fun _ =>
       bind (assert_string (map_index payload "body")) (fun _ =>
       Ret None))))
  | _ => (job, Ret (Some "invalid payload format"%string))
  end.

(** [DataProcessingJobHandler.Handle]. *)
Definition DataProcessingJobHandler : JobHandler := fun job =>
  match Payload job with
  | IMap _ => (job, Ret None)
  | _ => (job, Ret (Some "invalid payload format"%string))
  end.

(** [UserCleanupJobHandler.Handle]. *)
Definition UserCleanupJobHandler : JobHandler := fun job => (job, Ret None).

(** The handler table of the documentation's example. *)
Definition example_handlers : gmap string JobHandler :=
  <["email" := EmailJobHandler]>
    (<["data_processing" := DataProcessingJobHandler]>
       (<["user_cleanup" := UserCleanupJobHandler]> ∅)).

(** An email job whose payload map lacks the key ["to"]. *)
Definition email_without_recipient : Job :=
  {| ID := "job-1"; Type_ := "email";
     Payload := IMap [("subject"%string, IString "Welcome")];
     CreatedAt := 0; Status := "pending"; Error := None |}.

(** An email job whose payload is not a map. *)
Definition email_with_bad_payload : Job :=
  {| ID := "job-3"; Type_ := "email"; Payload := IString "hello";
     CreatedAt := 0; Status := "pending"; Error := None |}.

Definition cleanup_job : Job :=
  {| ID := "job-2"; Type_ := "user_cleanup"; Payload := INil;
     CreatedAt := 0; Status := "pending"; Error := None |}.

(** A run of [Submit] calls, in order: the pool afterwards and the error
    each call returned. *)
Fixpoint Submit_run (wp : WorkerPool) (jobs : list (option Job))
    : outcome (WorkerPool * list error) :=
  match jobs with
  | [] => Ret (wp, [])
  | job :: rest =>
      bind (Submit wp job) (fun r =>
      bind (Submit_run (fst r) rest) (fun rr =>
      Ret (fst rr, snd r :: snd rr)))
  end.

(** Up to [n] receives in a row, stopping where a receiver would block: the
    jobs received, in order, and the channel afterwards. *)
Fixpoint recv_run (n : nat) (ch : Chan) : list (option Job) * Chan :=
  match n with
  | O => ([], ch)
  | S n' =>
      match try_recv ch with
      | None => ([], ch)
      | Some (job, ch1) => let '(js, ch2) := recv_run n' ch1 in (job :: js, ch2)
      end
  end.

(** A pool on which [Stop] finds every channel it closes still open, and a
    worker in every slot. *)
Definition stoppable (wp : WorkerPool) : Prop :=
  pool_quit_closed wp = false /\
  closed (jobQueue wp) = false /\
  Forall (fun w => exists wk, w = Some wk /\ quit_closed wk = false) (workers wp).

End Worker.

Import Resilience.

(** * Properties *)

(** ** Machine arithmetic *)

Module GoFacts.

(** Linear arithmetic with the bounds of [int64] made explicit. *)
Ltac int64_lia := unfold int64_range, min_int64, max_int64 in *; lia.

Lemma wrap64_id (z : Z) : int64_range z -> wrap64 z = z.
Proof.
  unfold int64_range, min_int64, max_int64, wrap64. intros H.
  rewrite Z.mod_small; lia.
Qed.

Lemma Sub_exact (t u : Time) : int64_range (t - u) -> Sub t u = t - u.
Proof. unfold int64_range, Sub. lia. Qed.

Lemma Sub_le (t u : Time) (b : Z) : t - u <= b -> min_int64 <= b -> Sub t u <= b.
Proof. unfold Sub. lia. Qed.

Lemma Sub_range (t u : Time) : int64_range (Sub t u).
Proof. unfold int64_range, Sub, min_int64, max_int64. lia. Qed.

(** Truncating division by a positive divisor stays between zero and the
    dividend. *)
Lemma quot_pos_bounds (a b : Z) :
  0 < b -> (0 <= a -> 0 <= Z.quot a b <= a) /\ (a <= 0 -> a <= Z.quot a b <= 0).
Proof.
  intros Hb. split; intros Ha.
  - rewrite Z.quot_div_nonneg by lia. split.
    + apply Z.div_pos; lia.
    + apply Z.div_le_upper_bound; nia.
  - assert (E : Z.quot a b = - Z.quot (- a) b).
    { rewrite Z.quot_opp_l by lia. lia. }
    rewrite E. rewrite Z.quot_div_nonneg by lia.
    assert (0 <= (- a) / b) by (apply Z.div_pos; lia).
    assert ((- a) / b <= - a) by (apply Z.div_le_upper_bound; nia).
    lia.
Qed.

Lemma wrapu64_small (z : Z) : 0 <= z < 2 ^ 64 -> wrapu64 z = z.
Proof. intros H. unfold wrapu64. apply Z.mod_small. exact H. Qed.

(** Floors of quotients add up to at most the floor of the sum. *)
Lemma div_add_le (a b c : Z) :
  0 < c -> 0 <= a -> 0 <= b -> a / c + b / c <= (a + b) / c.
Proof.
  intros Hc Ha Hb. apply Z.div_le_lower_bound; [lia |].
  pose proof (Z.mul_div_le a c Hc). pose proof (Z.mul_div_le b c Hc). lia.
Qed.

End GoFacts.

(** ** Token bucket *)

Module RateLimiterFacts.
Import GoFacts.

Lemma refill_exact (rl : RateLimiter) (now : Time) :
  0 < refillRate rl ->
  lastRefillTime rl <= now ->
  now - lastRefillTime rl <= max_int64 ->
  int64_range (tokens rl) ->
  tokens rl + (now - lastRefillTime rl) / refillRate rl <= max_int64 ->
  let n := (now - lastRefillTime rl) / refillRate rl in
  refill rl now =
    if 0 <? n
    then {| tokens := Z.min (maxTokens rl) (tokens rl + n);
            maxTokens := maxTokens rl;
            refillRate := refillRate rl;
            lastRefillTime := now |}
    else rl.
Proof.
  intros HI Hle Hmax Ht Hsum n. unfold refill.
  assert (Hsub : Sub now (lastRefillTime rl) = now - lastRefillTime rl).
  { apply Sub_exact. int64_lia. }
  rewrite Hsub, Z.quot_div_nonneg by lia. fold n.
  assert (Hn : 0 <= n <= now - lastRefillTime rl).
  { unfold n. split; [apply Z.div_pos; lia | apply Z.div_le_upper_bound; nia]. }
  rewrite (wrap64_id n) by int64_lia.
  destruct (0 <? n) eqn:E; [| reflexivity].
  apply Z.ltb_lt in E.
  rewrite wrap64_id by int64_lia.
  destruct (maxTokens rl <? tokens rl + n) eqn:E2.
  - apply Z.ltb_lt in E2. rewrite Z.min_l by lia. reflexivity.
  - apply Z.ltb_ge in E2. rewrite Z.min_r by lia. reflexivity.
Qed.






(** C1, as stated, fails.  An empty bucket with a 100ms interval, last
    refilled at 0, is asked at 150ms: one token is added and
    [lastRefillTime] becomes 150ms, not 100ms.  The 50ms are lost: at
    200ms, two whole intervals after 0, the second token is refused. *)
Lemma Allow_discards_partial_interval :
  let rl := {| tokens := 0; maxTokens := 2;
               refillRate := 100 * Millisecond; lastRefillTime := 0 |} in
  exists rl1,
    Allow rl (150 * Millisecond) = Ret (true, rl1) /\
    spec_last_refill rl (150 * Millisecond) = 100 * Millisecond /\
    lastRefillTime rl1 = 150 * Millisecond /\
    lastRefillTime rl1 <> spec_last_refill rl (150 * Millisecond) /\
    Allow rl1 (200 * Millisecond) = Ret (false, rl1).
Proof.
  cbv zeta. eexists. split; [vm_compute; reflexivity |].
  repeat split; vm_compute; congruence.
Qed.

(** C1, amended.  With a positive interval, [Allow] computes
    [n = floor((now - last) / I)].  When [n] is positive it adds [n]
    tokens, caps the count at [M] and sets [lastRefillTime] to [now];
    otherwise count and [lastRefillTime] stay.  Then it takes a token if
    there is one. *)
Theorem Allow_refills_and_stamps_now (rl : RateLimiter) (now : Time) :
  0 < refillRate rl ->
  lastRefillTime rl <= now ->
  now - lastRefillTime rl <= max_int64 ->
  int64_range (tokens rl) ->
  tokens rl + (now - lastRefillTime rl) / refillRate rl <= max_int64 ->
  let n := (now - lastRefillTime rl) / refillRate rl in
  let c := if 0 <? n then Z.min (maxTokens rl) (tokens rl + n) else tokens rl in
  Allow rl now =
    Ret (0 <? c,
         {| tokens := if 0 <? c then c - 1 else c;
            maxTokens := maxTokens rl;
            refillRate := refillRate rl;
            lastRefillTime := if 0 <? n then now else lastRefillTime rl |}).
Proof.
  intros HI Hle Hmax Ht Hsum n c. unfold Allow.
  replace (refillRate rl =? 0) with false by (symmetry; apply Z.eqb_neq; lia).
  rewrite (refill_exact rl now HI Hle Hmax Ht Hsum). fold n.
  assert (Hn : 0 <= n).
  { unfold n. apply Z.div_pos; lia. }
  subst c. destruct (0 <? n) eqn:E; cbn [tokens maxTokens refillRate lastRefillTime].
  - destruct (0 <? Z.min (maxTokens rl) (tokens rl + n)) eqn:E2; [| reflexivity].
    apply Z.ltb_lt in E2. fold n in Hsum.
    rewrite wrap64_id by int64_lia.
    reflexivity.
  - destruct (0 <? tokens rl) eqn:E2.
    + apply Z.ltb_lt in E2.
      rewrite wrap64_id by int64_lia.
      reflexivity.
    + destruct rl; reflexivity.
Qed.

Lemma Allow_refills_and_stamps_now_witness :
  Allow {| tokens := 0; maxTokens := 2;
           refillRate := 100 * Millisecond; lastRefillTime := 0 |}
        (250 * Millisecond) =
    Ret (true, {| tokens := 1; maxTokens := 2;
                  refillRate := 100 * Millisecond;
                  lastRefillTime := 250 * Millisecond |}).
Proof.
  apply (Allow_refills_and_stamps_now
           {| tokens := 0; maxTokens := 2;
              refillRate := 100 * Millisecond; lastRefillTime := 0 |}
           (250 * Millisecond)).
  - reflexivity.
  - vm_compute; congruence.
  - vm_compute; congruence.
  - split; vm_compute; congruence.
  - vm_compute; congruence.
Defined.

(** *** Further properties of the bucket *)

(** A clock reading before the last refill adds nothing. *)
Lemma refill_clock_behind (rl : RateLimiter) (now : Time) :
  0 < refillRate rl -> now <= lastRefillTime rl -> refill rl now = rl.
Proof.
  intros HI Hnow. unfold refill.
  set (elapsed := Sub now (lastRefillTime rl)).
  assert (Hel : min_int64 <= elapsed <= 0).
  { split; [apply Sub_range |]. apply Sub_le; int64_lia. }
  destruct (quot_pos_bounds elapsed (refillRate rl) HI) as [_ Hn].
  specialize (Hn ltac:(lia)).
  rewrite wrap64_id by int64_lia.
  replace (0 <? Z.quot elapsed (refillRate rl)) with false
    by (symmetry; apply Z.ltb_ge; lia).
  reflexivity.
Qed.

(** One [Allow] never hands out more than the bucket holds plus what the
    clock has earned since the last refill: tokens in hand plus whole
    intervals still to come before [tend] do not grow, counting a grant. *)
Lemma Allow_budget (M : Z) (I : Duration) (t0 tend : Time)
    (rl : RateLimiter) (now : Time) :
  0 < I -> 0 <= M -> M + (tend - t0) <= max_int64 ->
  t0 <= now <= tend ->
  0 <= tokens rl <= M -> maxTokens rl = M -> refillRate rl = I ->
  t0 <= lastRefillTime rl <= tend ->
  exists b rl',
    Allow rl now = Ret (b, rl') /\
    0 <= tokens rl' <= M /\ maxTokens rl' = M /\ refillRate rl' = I /\
    t0 <= lastRefillTime rl' <= tend /\
    (if b then 1 else 0) + tokens rl' + (tend - lastRefillTime rl') / I
      <= tokens rl + (tend - lastRefillTime rl) / I.
Proof.
  intros HI HM Hfit Hnow Htok Hmax Hrate Hlast.
  unfold Allow.
  replace (refillRate rl =? 0) with false by (symmetry; apply Z.eqb_neq; lia).
  assert (Hr : exists rl1, refill rl now = rl1 /\
             0 <= tokens rl1 <= M /\ maxTokens rl1 = M /\ refillRate rl1 = I /\
             t0 <= lastRefillTime rl1 <= tend /\
             tokens rl1 + (tend - lastRefillTime rl1) / I
               <= tokens rl + (tend - lastRefillTime rl) / I).
  { destruct (Z_le_gt_dec now (lastRefillTime rl)) as [Hb | Ha].
    - rewrite refill_clock_behind by lia. exists rl. repeat split; try assumption; lia.
    - assert (Hn : 0 <= (now - lastRefillTime rl) / I <= now - lastRefillTime rl).
      { split; [apply Z.div_pos; lia | apply Z.div_le_upper_bound; nia]. }
      rewrite refill_exact; rewrite ?Hrate; try int64_lia.
      destruct (0 <? (now - lastRefillTime rl) / I) eqn:E.
      + eexists. split; [reflexivity |].
        cbn [tokens maxTokens refillRate lastRefillTime]. rewrite Hmax.
        pose proof (div_add_le (now - lastRefillTime rl) (tend - now) I HI
                      ltac:(lia) ltac:(lia)) as Hadd.
        replace (now - lastRefillTime rl + (tend - now))
          with (tend - lastRefillTime rl) in Hadd by lia.
        apply Z.ltb_lt in E. repeat split; try lia.
      + exists rl. repeat split; try assumption; lia. }
  destruct Hr as (rl1 & -> & Htok1 & Hmax1 & Hrate1 & Hlast1 & Hbud).
  destruct (0 <? tokens rl1) eqn:E.
  - apply Z.ltb_lt in E. eexists _, _. split; [reflexivity |].
    cbn [tokens maxTokens refillRate lastRefillTime].
    rewrite wrap64_id by int64_lia. repeat split; try assumption; lia.
  - eexists _, _. split; [reflexivity |]. repeat split; try assumption; lia.
Qed.

Lemma Allow_run_budget (M : Z) (I : Duration) (t0 tend : Time) (nows : list Time) :
  0 < I -> 0 <= M -> M + (tend - t0) <= max_int64 ->
  Forall (fun now => t0 <= now <= tend) nows ->
  forall rl,
    0 <= tokens rl <= M -> maxTokens rl = M -> refillRate rl = I ->
    t0 <= lastRefillTime rl <= tend ->
    exists rs,
      Allow_run rl nows = Ret rs /\
      Z.of_nat (granted rs) <= tokens rl + (tend - lastRefillTime rl) / I.
Proof.
  intros HI HM Hfit Hnows.
  induction Hnows as [| now rest Hnow _ IH]; intros rl Htok Hmax Hrate Hlast.
  - exists []. split; [reflexivity |]. cbn.
    assert (0 <= (tend - lastRefillTime rl) / I) by (apply Z.div_pos; lia). lia.
  - destruct (Allow_budget M I t0 tend rl now HI HM Hfit Hnow Htok Hmax Hrate Hlast)
      as (b & rl' & Ha & Htok' & Hmax' & Hrate' & Hlast' & Hbud).
    destruct (IH rl' Htok' Hmax' Hrate' Hlast') as (rs & Hrun & Hg).
    exists ((b, rl') :: rs). cbn [Allow_run]. rewrite Ha. cbn [bind snd]. rewrite Hrun.
    split; [reflexivity |].
    unfold granted in *. cbn [List.filter fst]. destruct b; cbn [length]; lia.
Qed.

(** X1. Conservation.  Over any run of [Allow] calls made within [T]
    nanoseconds of construction, a bucket of capacity [M] and interval [I]
    lets through at most [M + floor(T / I)] calls. *)
Theorem Allow_run_conservation (M : Z) (I : Duration) (t0 : Time) (T : Duration)
    (nows : list Time) :
  0 < I -> 0 <= M -> 0 <= T -> M + T <= max_int64 ->
  Forall (fun now => t0 <= now <= t0 + T) nows ->
  exists rs,
    Allow_run (NewRateLimiter M I t0) nows = Ret rs /\
    Z.of_nat (granted rs) <= M + T / I.
Proof.
  intros HI HM HT Hfit Hnows.
  destruct (Allow_run_budget M I t0 (t0 + T) nows HI HM
              ltac:(lia) Hnows (NewRateLimiter M I t0))
    as (rs & Hrun & Hg); cbn [NewRateLimiter tokens maxTokens refillRate lastRefillTime];
    try lia; try reflexivity.
  exists rs. split; [exact Hrun |].
  cbn [NewRateLimiter tokens lastRefillTime] in Hg.
  replace (t0 + T - t0) with T in Hg by lia. exact Hg.
Qed.

Lemma Allow_run_conservation_witness :
  exists rs,
    Allow_run (NewRateLimiter 2 (100 * Millisecond) 0)
      [0; 0; 0; 150 * Millisecond; 200 * Millisecond; 250 * Millisecond] = Ret rs /\
    Z.of_nat (granted rs) <= 2 + 250 * Millisecond / (100 * Millisecond).
Proof.
  apply (Allow_run_conservation 2 (100 * Millisecond) 0 (250 * Millisecond)
           [0; 0; 0; 150 * Millisecond; 200 * Millisecond; 250 * Millisecond]).
  - reflexivity.
  - lia.
  - vm_compute; congruence.
  - vm_compute; congruence.
  - repeat constructor; vm_compute; congruence.
Defined.




(** Within the first interval after a refill at [t0] nothing is added:
    [c] tokens answer the first [c] calls and no more. *)
Lemma Allow_run_within_interval (I : Duration) (t0 : Time) (nows : list Time) :
  0 < I <= max_int64 ->
  Forall (fun now => t0 <= now < t0 + I) nows ->
  forall rl,
    refillRate rl = I -> lastRefillTime rl = t0 ->
    0 <= tokens rl <= max_int64 ->
    exists rs,
      Allow_run rl nows = Ret rs /\
      map fst rs =
        repeat true (Nat.min (Z.to_nat (tokens rl)) (length nows)) ++
        repeat false (length nows - Z.to_nat (tokens rl)).
Proof.
  intros HI Hnows.
  induction Hnows as [| now rest Hnow _ IH]; intros rl Hrate Hlast Htok.
  - exists []. split; [reflexivity |]. rewrite Nat.min_0_r. reflexivity.
  - assert (Hq : (now - lastRefillTime rl) / refillRate rl = 0)
      by (apply Z.div_small; lia).
    assert (Hr : refill rl now = rl).
    { rewrite refill_exact; rewrite ?Hq; try int64_lia. reflexivity. }
    cbn [Allow_run]. unfold Allow.
    replace (refillRate rl =? 0) with false by (symmetry; apply Z.eqb_neq; lia).
    rewrite Hr.
    destruct (0 <? tokens rl) eqn:E.
    + apply Z.ltb_lt in E. cbn [bind snd].
      rewrite wrap64_id by int64_lia.
      destruct (IH {| tokens := tokens rl - 1; maxTokens := maxTokens rl;
                      refillRate := refillRate rl;
                      lastRefillTime := lastRefillTime rl |}
                   Hrate Hlast ltac:(cbn; lia)) as (rs & Hrun & Hans).
      rewrite Hrun. cbn [bind]. eexists. split; [reflexivity |].
      cbn [map fst tokens length] in *. rewrite Hans.
      replace (Z.to_nat (tokens rl)) with (S (Z.to_nat (tokens rl - 1))) by lia.
      reflexivity.
    + apply Z.ltb_ge in E. cbn [bind snd].
      destruct (IH rl Hrate Hlast Htok) as (rs & Hrun & Hans).
      rewrite Hrun. cbn [bind]. eexists. split; [reflexivity |].
      cbn [map fst length]. rewrite Hans.
      replace (Z.to_nat (tokens rl)) with 0%nat by lia.
      cbn [Nat.min repeat app]. rewrite !Nat.sub_0_r. reflexivity.
Qed.

(** X3. Burst.  A new bucket of capacity [M] answers calls made before the
    first interval has passed with [true] for the first [M] of them and
    [false] for all the others. *)
Theorem Allow_run_burst (M : Z) (I : Duration) (t0 : Time) (nows : list Time) :
  0 < I <= max_int64 ->
  0 <= M <= max_int64 ->
  Forall (fun now => t0 <= now < t0 + I) nows ->
  exists rs,
    Allow_run (NewRateLimiter M I t0) nows = Ret rs /\
    map fst rs =
      repeat true (Nat.min (Z.to_nat M) (length nows)) ++
      repeat false (length nows - Z.to_nat M).
Proof.
  intros HI HM Hnows.
  apply (Allow_run_within_interval I t0 nows HI Hnows (NewRateLimiter M I t0));
    [reflexivity | reflexivity | exact HM].
Qed.

Lemma Allow_run_burst_witness :
  exists rs,
    Allow_run (NewRateLimiter 2 (100 * Millisecond) 0)
      [0; 10 * Millisecond; 20 * Millisecond; 30 * Millisecond; 99 * Millisecond] = Ret rs /\
    map fst rs = [true; true; false; false; false].
Proof.
  apply (Allow_run_burst 2 (100 * Millisecond) 0
           [0; 10 * Millisecond; 20 * Millisecond; 30 * Millisecond; 99 * Millisecond]).
  - split; vm_compute; congruence.
  - split; vm_compute; congruence.
  - repeat constructor; vm_compute; congruence.
Defined.

(** An empty bucket asked a full interval after its last refill gives a
    token, however late the call. *)
Lemma Allow_after_interval_served (rl : RateLimiter) (now : Time) :
  0 < refillRate rl <= max_int64 ->
  1 <= maxTokens rl ->
  tokens rl = 0 ->
  lastRefillTime rl + refillRate rl <= now ->
  exists rl', Allow rl now = Ret (true, rl').
Proof.
  intros HI HM Htok Hnow. unfold Allow.
  replace (refillRate rl =? 0) with false by (symmetry; apply Z.eqb_neq; lia).
  assert (Hpos : 0 < tokens (refill rl now)).
  { unfold refill.
    set (elapsed := Sub now (lastRefillTime rl)).
    assert (Hel : refillRate rl <= elapsed <= max_int64).
    { unfold elapsed, Sub. int64_lia. }
    destruct (quot_pos_bounds elapsed (refillRate rl) ltac:(lia)) as [Hp _].
    specialize (Hp ltac:(lia)).
    assert (1 <= Z.quot elapsed (refillRate rl)).
    { rewrite Z.quot_div_nonneg by lia. apply Z.div_le_lower_bound; lia. }
    rewrite (wrap64_id (Z.quot elapsed (refillRate rl))) by int64_lia.
    replace (0 <? Z.quot elapsed (refillRate rl)) with true
      by (symmetry; apply Z.ltb_lt; lia).
    cbn [tokens]. rewrite Htok, Z.add_0_l, wrap64_id by int64_lia.
    destruct (maxTokens rl <? Z.quot elapsed (refillRate rl)); lia. }
  apply Z.ltb_lt in Hpos. rewrite Hpos. eexists. reflexivity.
Qed.

(** Calls made before a full interval has passed on an empty bucket are
    refused and leave it as it is. *)
Lemma Allow_run_polls_refused (rl : RateLimiter) (polls : list Time) :
  0 < refillRate rl <= max_int64 ->
  tokens rl = 0 ->
  Forall (fun t => lastRefillTime rl <= t < lastRefillTime rl + refillRate rl) polls ->
  forall rest rs,
    Allow_run rl rest = Ret rs ->
    Allow_run rl (polls ++ rest) = Ret (map (fun _ => (false, rl)) polls ++ rs).
Proof.
  intros HI Htok Hpolls rest rs Hrest.
  induction Hpolls as [| t polls Ht _ IH]; [exact Hrest |].
  cbn [app Allow_run map]. unfold Allow.
  replace (refillRate rl =? 0) with false by (symmetry; apply Z.eqb_neq; lia).
  assert (Hq : (t - lastRefillTime rl) / refillRate rl = 0) by (apply Z.div_small; lia).
  assert (Hr : refill rl t = rl).
  { rewrite refill_exact; rewrite ?Hq, ?Htok; try int64_lia. reflexivity. }
  rewrite Hr, Htok. cbn [Z.ltb Z.compare bind snd]. rewrite IH. reflexivity.
Qed.

(** X26. Polling does not starve the caller.  On an empty bucket of
    capacity at least one, any number of calls made before a full interval
    has passed since the last refill are refused, and the first call made
    an interval or more after that refill is served: the refused calls have
    not pushed the refill back. *)
Theorem Allow_run_served_after_polling (rl : RateLimiter) (polls : list Time)
    (now : Time) :
  0 < refillRate rl <= max_int64 ->
  1 <= maxTokens rl ->
  tokens rl = 0 ->
  Forall (fun t => lastRefillTime rl <= t < lastRefillTime rl + refillRate rl) polls ->
  lastRefillTime rl + refillRate rl <= now ->
  exists rl',
    Allow_run rl (polls ++ [now]) =
      Ret (map (fun _ => (false, rl)) polls ++ [(true, rl')]).
Proof.
  intros HI HM Htok Hpolls Hnow.
  destruct (Allow_after_interval_served rl now HI HM Htok Hnow) as (rl' & Ha).
  exists rl'. apply Allow_run_polls_refused; try assumption.
  cbn [Allow_run]. rewrite Ha. reflexivity.
Qed.

Lemma Allow_run_served_after_polling_witness :
  exists rl',
    Allow_run {| tokens := 0; maxTokens := 2;
                 refillRate := 100 * Millisecond; lastRefillTime := 0 |}
      ([30 * Millisecond; 60 * Millisecond; 90 * Millisecond] ++ [120 * Millisecond]) =
      Ret (map (fun _ => (false, {| tokens := 0; maxTokens := 2;
                                     refillRate := 100 * Millisecond;
                                     lastRefillTime := 0 |}))
             [30 * Millisecond; 60 * Millisecond; 90 * Millisecond]
           ++ [(true, rl')]).
Proof.
  apply (Allow_run_served_after_polling
           {| tokens := 0; maxTokens := 2;
              refillRate := 100 * Millisecond; lastRefillTime := 0 |}
           [30 * Millisecond; 60 * Millisecond; 90 * Millisecond]
           (120 * Millisecond)).
  - split; vm_compute; congruence.
  - vm_compute; congruence.
  - reflexivity.
  - repeat constructor; vm_compute; congruence.
  - vm_compute; congruence.
Defined.



(** *** [Wait] *)

Section Waiting.

Context {W : Type} (clock : W -> Time) (ctx : Context W).



(** A bucket without capacity never gives a token. *)
Lemma Allow_no_capacity (rl : RateLimiter) (now : Time) :
  refillRate rl <> 0 -> maxTokens rl <= 0 -> tokens rl <= 0 ->
  exists rl',
    Allow rl now = Ret (false, rl') /\
    refillRate rl' = refillRate rl /\ maxTokens rl' = maxTokens rl /\ tokens rl' <= 0.
Proof.
  intros HI HM Htok. unfold Allow.
  replace (refillRate rl =? 0) with false by (symmetry; apply Z.eqb_neq; lia).
  assert (Hr : refillRate (refill rl now) = refillRate rl /\
               maxTokens (refill rl now) = maxTokens rl /\
               tokens (refill rl now) <= 0).
  { unfold refill.
    destruct (0 <? wrap64 (Z.quot (Sub now (lastRefillTime rl)) (refillRate rl)));
      [| auto].
    cbn [tokens maxTokens refillRate]. repeat split.
    destruct (maxTokens rl <?
              wrap64 (tokens rl +
                      wrap64 (Z.quot (Sub now (lastRefillTime rl)) (refillRate rl))))
      eqn:E; [lia | apply Z.ltb_ge in E; lia]. }
  destruct Hr as (Hr1 & Hr2 & Hr3).
  replace (0 <? tokens (refill rl now)) with false by (symmetry; apply Z.ltb_ge; lia).
  eexists. split; [reflexivity | auto].
Qed.

(** X5. A limiter built with capacity zero never serves: with a context
    that is not cancelled, [Wait] is still looping after any number of
    iterations. *)
Theorem Wait_without_capacity_never_returns (rl : RateLimiter) (w : W) :
  never_cancelled ctx ->
  refillRate rl <> 0 -> maxTokens rl <= 0 -> tokens rl <= 0 ->
  forall fuel, Wait_loop clock ctx fuel rl w = None.
Proof.
  intros [_ Hfire] HI HM Htok fuel. revert rl w HI HM Htok.
  induction fuel as [| fuel IH]; intros rl w HI HM Htok; [reflexivity |].
  cbn [Wait_loop].
  destruct (Allow_no_capacity rl (clock w) HI HM Htok) as (rl1 & -> & Hr1 & Hr2 & Hr3).
  pose proof (Hfire (refillRate rl1) w) as Hf.
  destruct (ctx_wait ctx (refillRate rl1) w) as [w1 fired].
  cbn [snd] in Hf. subst fired.
  apply IH; lia.
Qed.

End Waiting.


Lemma Wait_without_capacity_never_returns_witness :
  Wait_loop sim_clock Background 1000
    (NewRateLimiter 0 (100 * Millisecond) 0) (mkSim 0 0) = None.
Proof.
  refine (Wait_without_capacity_never_returns sim_clock Background
            (NewRateLimiter 0 (100 * Millisecond) 0) (mkSim 0 0) _ _ _ _ 1000%nat).
  - split; reflexivity.
  - vm_compute; congruence.
  - vm_compute; congruence.
  - vm_compute; congruence.
Defined.

End RateLimiterFacts.

(** ** Circuit breaker *)

Module CircuitBreakerFacts.
Import GoFacts.

Section Breaker.

Context {W : Type} (clock : W -> Time).

(** An admitted call returns what [fn] returned, in the world [fn]
    left. *)
Lemma Execute_let_through (cb cb1 : CircuitBreaker) (fn : op W) (w : W) :
  admission clock cb w = Some cb1 ->
  Execute clock cb fn w =
    (record_result clock cb1 (fst (fn w)) (snd (fn w)), fst (fn w), snd (fn w)).
Proof.
  intros H. unfold Execute. rewrite H. destruct (fn w) as [w1 e]. reflexivity.
Qed.

Lemma Execute_rejected (cb : CircuitBreaker) (fn : op W) (w : W) :
  admission clock cb w = None ->
  Execute clock cb fn w = (cb, w, errCircuitOpen).
Proof. intros H. unfold Execute. rewrite H. reflexivity. Qed.

Lemma admission_not_open (cb : CircuitBreaker) (w : W) :
  state cb <> StateOpen -> admission clock cb w = Some cb.
Proof. unfold admission. destruct (state cb); cbn; congruence. Qed.

(** A failure below the threshold leaves a closed breaker closed; the
    failure that reaches it opens the breaker. *)
Lemma Execute_closed_failure (cb : CircuitBreaker) (fn : op W) (w : W) :
  state cb = StateClosed ->
  snd (fn w) <> None ->
  0 <= failures cb < 2 ^ 64 - 1 ->
  Execute clock cb fn w =
    ({| maxFailures := maxFailures cb;
        resetTimeout := resetTimeout cb;
        state := if maxFailures cb <=? failures cb + 1 then StateOpen else StateClosed;
        failures := failures cb + 1;
        lastFailTime := clock (fst (fn w)) |},
     fst (fn w), snd (fn w)).
Proof.
  intros Hs Hf Hr.
  rewrite (Execute_let_through cb cb) by (apply admission_not_open; congruence).
  destruct (snd (fn w)) as [e |]; [| congruence].
  unfold record_result. rewrite wrapu64_small by lia. rewrite Hs. reflexivity.
Qed.

(** C2. Threshold 3, reset timeout 1s.  Three failing calls return the
    operation's failure and the third opens the breaker.  A fourth call
    within the timeout returns the open-circuit error and leaves the
    world as it was: the operation is not run.  A call later than the
    timeout after the last failure, with an operation that succeeds, is
    run, returns [nil] and closes the breaker. *)
Theorem Execute_burst_then_recovery (f g : op W) (w1 w2 w3 w4 w5 : W) :
  always_fails f ->
  snd (g w5) = None ->
  let cb0 := NewCircuitBreaker 3 (1 * Second) in
  let x1 := Execute clock cb0 f w1 in
  let x2 := Execute clock (fst (fst x1)) f w2 in
  let x3 := Execute clock (fst (fst x2)) f w3 in
  let x4 := Execute clock (fst (fst x3)) f w4 in
  let x5 := Execute clock (fst (fst x4)) g w5 in
  let last_failure := clock (fst (f w3)) in
  Since clock w4 last_failure <= 1 * Second ->
  1 * Second < Since clock w5 last_failure ->
  (snd x1 = snd (f w1) /\ snd x1 <> None /\ snd (fst x1) = fst (f w1)) /\
  (snd x2 = snd (f w2) /\ snd x2 <> None /\ snd (fst x2) = fst (f w2)) /\
  (snd x3 = snd (f w3) /\ snd x3 <> None /\ snd (fst x3) = fst (f w3)) /\
  state (fst (fst x3)) = StateOpen /\
  (snd x4 = errCircuitOpen /\ snd (fst x4) = w4 /\ state (fst (fst x4)) = StateOpen) /\
  (snd x5 = None /\ snd (fst x5) = fst (g w5) /\
   state (fst (fst x5)) = StateClosed /\ failures (fst (fst x5)) = 0).
Proof.
  intros Hf Hg cb0 x1 x2 x3 x4 x5 last_failure Hin Hout.
  assert (E1 : x1 = ({| maxFailures := 3; resetTimeout := 1 * Second;
                        state := StateClosed; failures := 1;
                        lastFailTime := clock (fst (f w1)) |},
                     fst (f w1), snd (f w1))).
  { subst x1 cb0. rewrite Execute_closed_failure; [reflexivity | reflexivity | apply Hf | cbn; lia]. }
  assert (E2 : x2 = ({| maxFailures := 3; resetTimeout := 1 * Second;
                        state := StateClosed; failures := 2;
                        lastFailTime := clock (fst (f w2)) |},
                     fst (f w2), snd (f w2))).
  { subst x2. rewrite E1. cbn [fst snd].
    rewrite Execute_closed_failure; [reflexivity | reflexivity | apply Hf | cbn; lia]. }
  assert (E3 : x3 = ({| maxFailures := 3; resetTimeout := 1 * Second;
                        state := StateOpen; failures := 3;
                        lastFailTime := last_failure |},
                     fst (f w3), snd (f w3))).
  { subst x3. rewrite E2. cbn [fst snd].
    rewrite Execute_closed_failure; [reflexivity | reflexivity | apply Hf | cbn; lia]. }
  assert (E4 : x4 = (fst (fst x3), w4, errCircuitOpen)).
  { subst x4. rewrite E3. cbn [fst snd]. apply Execute_rejected.
    unfold admission. cbn [state CircuitState_eqb resetTimeout lastFailTime].
    replace (1 * Second <? Since clock w4 last_failure) with false; [reflexivity |].
    symmetry. apply Z.ltb_ge. exact Hin. }
  assert (E5 : x5 = ({| maxFailures := 3; resetTimeout := 1 * Second;
                        state := StateClosed; failures := 0;
                        lastFailTime := last_failure |},
                     fst (g w5), None)).
  { subst x5. rewrite E4, E3. cbn [fst snd].
    rewrite (Execute_let_through _ {| maxFailures := 3; resetTimeout := 1 * Second;
                                   state := StateHalfOpen; failures := 3;
                                   lastFailTime := last_failure |}).
    - rewrite Hg. reflexivity.
    - unfold admission. cbn [state CircuitState_eqb resetTimeout lastFailTime].
      replace (1 * Second <? Since clock w5 last_failure) with true; [reflexivity |].
      symmetry. apply Z.ltb_lt. exact Hout. }
  rewrite E5, E4, E3, E2, E1. cbn [fst snd state failures].
  repeat split; try reflexivity; apply Hf.
Qed.

(** C9. A call that is admitted and whose operation succeeds returns
    [nil], leaves the breaker closed with a failure count of zero,
    whatever the count was; a failure after it counts as the first. *)
Theorem Execute_success_resets_failures (cb : CircuitBreaker) (fn : op W) (w : W) :
  admission clock cb w <> None ->
  snd (fn w) = None ->
  let x := Execute clock cb fn w in
  snd x = None /\
  snd (fst x) = fst (fn w) /\
  failures (fst (fst x)) = 0 /\
  state (fst (fst x)) = StateClosed /\
  forall (fn2 : op W) (w2 : W),
    snd (fn2 w2) <> None ->
    failures (fst (fst (Execute clock (fst (fst x)) fn2 w2))) = 1.
Proof.
  intros Ha Hs x.
  destruct (admission clock cb w) as [cb1 |] eqn:E; [clear Ha | congruence].
  assert (Hst : state cb1 <> StateOpen).
  { unfold admission in E. destruct (state cb) eqn:Es; cbn in E.
    - injection E as <-. congruence.
    - destruct (resetTimeout cb <? Since clock w (lastFailTime cb)); [| discriminate].
      injection E as <-. cbn. discriminate.
    - injection E as <-. congruence. }
  subst x. rewrite (Execute_let_through cb cb1 fn w E), Hs.
  cbn [fst snd record_result failures state].
  assert (Hc : (if CircuitState_eqb (state cb1) StateHalfOpen
                then StateClosed else state cb1) = StateClosed).
  { destruct (state cb1); cbn; congruence. }
  rewrite Hc. repeat split; try reflexivity.
  intros fn2 w2 Hf2.
  rewrite Execute_closed_failure; [reflexivity | reflexivity | exact Hf2 | cbn; lia].
Qed.

End Breaker.

Lemma Execute_burst_then_recovery_witness :
  let cb0 := NewCircuitBreaker 3 (1 * Second) in
  let x1 := Execute sim_clock cb0 failing_op (mkSim 0 0) in
  let x2 := Execute sim_clock (fst (fst x1)) failing_op (mkSim (10 * Millisecond) 1) in
  let x3 := Execute sim_clock (fst (fst x2)) failing_op (mkSim (20 * Millisecond) 2) in
  let x4 := Execute sim_clock (fst (fst x3)) failing_op (mkSim (30 * Millisecond) 3) in
  let x5 := Execute sim_clock (fst (fst x4)) (flaky 0) (mkSim (1130 * Millisecond) 3) in
  snd x4 = errCircuitOpen /\ snd (fst x4) = mkSim (30 * Millisecond) 3 /\
  snd x5 = None /\ state (fst (fst x5)) = StateClosed.
Proof.
  intros cb0 x1 x2 x3 x4 x5.
  assert (H1 : always_fails failing_op) by (intros w; cbn; discriminate).
  assert (H2 : snd (flaky 0 (mkSim (1130 * Millisecond) 3)) = None) by reflexivity.
  assert (H3 : Since sim_clock (mkSim (30 * Millisecond) 3)
                 (sim_clock (fst (failing_op (mkSim (20 * Millisecond) 2)))) <= 1 * Second)
    by (vm_compute; congruence).
  assert (H4 : 1 * Second < Since sim_clock (mkSim (1130 * Millisecond) 3)
                 (sim_clock (fst (failing_op (mkSim (20 * Millisecond) 2)))))
    by (vm_compute; congruence).
  destruct (Execute_burst_then_recovery sim_clock failing_op (flaky 0)
              (mkSim 0 0) (mkSim (10 * Millisecond) 1) (mkSim (20 * Millisecond) 2)
              (mkSim (30 * Millisecond) 3) (mkSim (1130 * Millisecond) 3)
              H1 H2 H3 H4)
    as (_ & _ & _ & _ & (A & B & _) & (C & _ & D & _)).
  repeat split; assumption.
Defined.

Lemma Execute_success_resets_failures_witness :
  failures (fst (fst (Execute sim_clock
                        {| maxFailures := 3; resetTimeout := 1 * Second;
                           state := StateClosed; failures := 2;
                           lastFailTime := 21 * Millisecond |}
                        (flaky 0) (mkSim (30 * Millisecond) 2)))) = 0.
Proof.
  refine (proj1 (proj2 (proj2
    (Execute_success_resets_failures sim_clock
       {| maxFailures := 3; resetTimeout := 1 * Second;
          state := StateClosed; failures := 2;
          lastFailTime := 21 * Millisecond |}
       (flaky 0) (mkSim (30 * Millisecond) 2) _ _)))).
  - vm_compute; discriminate.
  - reflexivity.
Defined.

(** *** Runs of calls *)

Section Runs.

Context {W : Type} (clock : W -> Time).

Lemma Execute_run_cons (cb : CircuitBreaker) (fn : op W) (w : W) (ws : list W) :
  Execute_run clock cb fn (w :: ws) =
    (fst (Execute_run clock (fst (fst (Execute clock cb fn w))) fn ws),
     (snd (fst (Execute clock cb fn w)), snd (Execute clock cb fn w))
       :: snd (Execute_run clock (fst (fst (Execute clock cb fn w))) fn ws)).
Proof.
  cbn [Execute_run]. destruct (Execute clock cb fn w) as [[cb1 w1] err].
  cbn [fst snd]. destruct (Execute_run clock cb1 fn ws). reflexivity.
Qed.

(** X6. Threshold.  On a closed breaker, failing calls are all run, each
    adds one to the failure count, and the breaker stays closed as long as
    the count is below [maxFailures]; the call that reaches it opens the
    breaker. *)
Theorem Execute_run_opens_at_threshold (cb : CircuitBreaker) (fn : op W)
    (ws : list W) :
  always_fails fn ->
  state cb = StateClosed ->
  0 <= failures cb < maxFailures cb ->
  maxFailures cb < 2 ^ 64 ->
  failures cb + Z.of_nat (length ws) <= maxFailures cb ->
  let r := Execute_run clock cb fn ws in
  snd r = map fn ws /\
  failures (fst r) = failures cb + Z.of_nat (length ws) /\
  state (fst r) =
    (if failures (fst r) <? maxFailures cb then StateClosed else StateOpen) /\
  maxFailures (fst r) = maxFailures cb.
Proof.
  intros Hf. revert cb.
  induction ws as [| w ws IH]; intros cb Hs Hc HF Hlen r.
  - subst r. cbn [Execute_run fst snd map length]. rewrite Z.add_0_r.
    replace (failures cb <? maxFailures cb) with true by (symmetry; apply Z.ltb_lt; lia).
    auto.
  - subst r. rewrite Execute_run_cons.
    rewrite (Execute_closed_failure clock cb fn w Hs (Hf w) ltac:(lia)).
    cbn [fst snd]. cbn [length] in Hlen.
    assert (Epair : (fst (fn w), snd (fn w)) = fn w) by (destruct (fn w); reflexivity).
    rewrite Epair.
    destruct (Z.leb_spec (maxFailures cb) (failures cb + 1)) as [Hreach | Hbelow].
    + destruct ws as [| w' ws']; [| cbn [length] in Hlen; lia].
      cbn [Execute_run fst snd map length failures state maxFailures].
      replace (failures cb + 1 <? maxFailures cb) with false
        by (symmetry; apply Z.ltb_ge; lia).
      repeat split; lia.
    + set (cb1 := {| maxFailures := maxFailures cb; resetTimeout := resetTimeout cb;
                     state := StateClosed; failures := failures cb + 1;
                     lastFailTime := clock (fst (fn w)) |}).
      destruct (IH cb1 eq_refl ltac:(cbn; lia) ltac:(cbn; lia) ltac:(cbn; lia))
        as (IH1 & IH2 & IH3 & IH4).
      cbn [maxFailures failures] in IH2, IH3, IH4.
      rewrite IH1, IH2, IH3, IH4. rewrite IH2. cbn [map length].
      repeat split; try reflexivity. subst cb1. cbn [failures]. lia.
Qed.

(** X7. While the breaker is open and the reset timeout has not passed,
    every call is refused with the open-circuit error, the operation is
    not run and the breaker does not change. *)
Theorem Execute_run_refused_while_open (cb : CircuitBreaker) (fn : op W)
    (ws : list W) :
  state cb = StateOpen ->
  Forall (fun w => Since clock w (lastFailTime cb) <= resetTimeout cb) ws ->
  Execute_run clock cb fn ws = (cb, map (fun w => (w, errCircuitOpen)) ws).
Proof.
  intros Hs Hws. induction Hws as [| w ws Hw _ IH]; [reflexivity |].
  rewrite Execute_run_cons.
  rewrite Execute_rejected.
  - cbn [fst snd]. rewrite IH. reflexivity.
  - unfold admission. rewrite Hs. cbn [CircuitState_eqb].
    replace (resetTimeout cb <? Since clock w (lastFailTime cb)) with false
      by (symmetry; apply Z.ltb_ge; exact Hw).
    reflexivity.
Qed.

(** One call keeps the breaker at rest and adds at most one failure. *)
Lemma Execute_at_rest (cb : CircuitBreaker) (fn : op W) (w : W) :
  at_rest cb -> failures cb + 1 < 2 ^ 64 ->
  at_rest (fst (fst (Execute clock cb fn w))) /\
  failures (fst (fst (Execute clock cb fn w))) <= failures cb + 1.
Proof.
  intros (Hno & Hopen & Hpos) Hwrap. unfold Execute.
  destruct (admission clock cb w) as [cb1 |] eqn:Ea.
  - assert (H1 : maxFailures cb1 = maxFailures cb /\ failures cb1 = failures cb /\
                 (state cb1 = StateClosed \/
                  (state cb1 = StateHalfOpen /\ maxFailures cb <= failures cb))).
    { unfold admission in Ea. destruct (state cb) eqn:Es; cbn in Ea.
      - injection Ea as <-. auto.
      - destruct (resetTimeout cb <? Since clock w (lastFailTime cb)); [| discriminate].
        injection Ea as <-. cbn.
        split; [reflexivity |]. split; [reflexivity |]. right.
        split; [reflexivity | apply Hopen; reflexivity].
      - congruence. }
    destruct H1 as (HF & Hfl & Hst).
    destruct (fn w) as [w1 [e |]]; cbn [fst snd record_result].
    + rewrite wrapu64_small by lia. unfold at_rest. cbn [state failures maxFailures].
      rewrite HF, Hfl.
      destruct (Z.leb_spec (maxFailures cb) (failures cb + 1)).
      * repeat split; try discriminate; lia.
      * destruct Hst as [-> | [_ Hge]]; [| lia].
        repeat split; try discriminate; lia.
    + unfold at_rest. cbn [state failures maxFailures].
      destruct Hst as [-> | [-> _]]; cbn; repeat split; try discriminate; lia.
  - cbn [fst]. unfold at_rest. repeat split; try assumption; lia.
Qed.

(** X8. Between the calls of a single caller the breaker is never
    half-open, and it is open only when the failure count has reached
    [maxFailures]: this holds for a new breaker and is kept by every run of
    calls, whatever the operations return. *)
Theorem Execute_run_at_rest (cb : CircuitBreaker) (fn : op W) (ws : list W) :
  at_rest cb ->
  failures cb + Z.of_nat (length ws) < 2 ^ 64 ->
  at_rest (fst (Execute_run clock cb fn ws)) /\
  failures (fst (Execute_run clock cb fn ws)) <= failures cb + Z.of_nat (length ws).
Proof.
  revert cb. induction ws as [| w ws IH]; intros cb Hrest Hwrap.
  - cbn. split; [exact Hrest | lia].
  - rewrite Execute_run_cons. cbn [fst length] in *.
    destruct (Execute_at_rest cb fn w Hrest ltac:(lia)) as [Hr1 Hf1].
    destruct (IH _ Hr1 ltac:(lia)) as [Hr2 Hf2].
    split; [exact Hr2 | lia].
Qed.


(** Two breakers that differ only in a failure time that will not be read
    answer a call alike and stay that way. *)
Lemma Execute_same_gate (a b : CircuitBreaker) (fn : op W) (w : W) :
  same_gate a b ->
  snd (fst (Execute clock a fn w)) = snd (fst (Execute clock b fn w)) /\
  snd (Execute clock a fn w) = snd (Execute clock b fn w) /\
  same_gate (fst (fst (Execute clock a fn w))) (fst (fst (Execute clock b fn w))).
Proof.
  intros (HF & HR & Hs & Hc & Ht).
  destruct a as [Fa Ra sa fa ta], b as [Fb Rb sb fb tb].
  cbn [maxFailures resetTimeout state failures lastFailTime] in HF, HR, Hs, Hc, Ht.
  subst Fb Rb sb fb.
  unfold Execute, admission, same_gate.
  cbn [maxFailures resetTimeout state failures lastFailTime].
  destruct sa; cbn [CircuitState_eqb].
  - destruct (fn w) as [w1 [e |]];
      cbn [fst snd record_result maxFailures resetTimeout state failures
           lastFailTime CircuitState_eqb];
      auto 10.
  - destruct Ht as [Ht | Ht]; [discriminate |]. subst tb.
    destruct (Ra <? Since clock w ta).
    + destruct (fn w) as [w1 [e |]];
        cbn [fst snd record_result set_state maxFailures resetTimeout state
             failures lastFailTime CircuitState_eqb];
        auto 10.
    + cbn [fst snd maxFailures resetTimeout state failures lastFailTime]. auto 10.
  - destruct Ht as [Ht | Ht]; [discriminate |]. subst tb.
    destruct (fn w) as [w1 [e |]];
      cbn [fst snd record_result maxFailures resetTimeout state failures
           lastFailTime CircuitState_eqb];
      auto 10.
Qed.

(** X10. [Reset] gives back a new breaker: after [Reset], any run of calls
    gets the answers, and leaves the worlds, that the same run gets from
    [NewCircuitBreaker] with the same threshold and timeout, whatever state,
    count and failure time the breaker had. *)
Theorem Reset_behaves_like_new (cb : CircuitBreaker) (fn : op W) (ws : list W) :
  snd (Execute_run clock (Reset cb) fn ws) =
    snd (Execute_run clock
           (NewCircuitBreaker (maxFailures cb) (resetTimeout cb)) fn ws) /\
  same_gate (fst (Execute_run clock (Reset cb) fn ws))
    (fst (Execute_run clock
            (NewCircuitBreaker (maxFailures cb) (resetTimeout cb)) fn ws)).
Proof.
  assert (H0 : same_gate (Reset cb)
                 (NewCircuitBreaker (maxFailures cb) (resetTimeout cb))).
  { unfold same_gate, Reset, NewCircuitBreaker. cbn. auto 10. }
  revert H0.
  generalize (Reset cb) as a,
    (NewCircuitBreaker (maxFailures cb) (resetTimeout cb)) as b.
  induction ws as [| w ws IH]; intros a b Hab.
  - cbn. split; [reflexivity | exact Hab].
  - rewrite !Execute_run_cons. cbn [fst snd].
    destruct (Execute_same_gate a b fn w Hab) as (Hw & He & Hg).
    destruct (IH _ _ Hg) as [IH1 IH2].
    rewrite Hw, He, IH1. split; [reflexivity | exact IH2].
Qed.

End Runs.

Lemma Execute_run_opens_at_threshold_witness :
  let r := Execute_run sim_clock (NewCircuitBreaker 3 (1 * Second)) failing_op
             [mkSim 0 0; mkSim (10 * Millisecond) 1; mkSim (20 * Millisecond) 2] in
  snd r = map failing_op
            [mkSim 0 0; mkSim (10 * Millisecond) 1; mkSim (20 * Millisecond) 2] /\
  failures (fst r) = 0 + Z.of_nat 3 /\
  state (fst r) = (if failures (fst r) <? 3 then StateClosed else StateOpen) /\
  maxFailures (fst r) = 3.
Proof.
  apply (Execute_run_opens_at_threshold sim_clock (NewCircuitBreaker 3 (1 * Second))
           failing_op
           [mkSim 0 0; mkSim (10 * Millisecond) 1; mkSim (20 * Millisecond) 2]).
  - intros w; cbn; discriminate.
  - reflexivity.
  - split; vm_compute; congruence.
  - vm_compute; congruence.
  - vm_compute; congruence.
Defined.

Lemma Execute_run_refused_while_open_witness :
  let cb := {| maxFailures := 3; resetTimeout := 1 * Second; state := StateOpen;
               failures := 3; lastFailTime := 21 * Millisecond |} in
  Execute_run sim_clock cb failing_op
    [mkSim (30 * Millisecond) 3; mkSim (500 * Millisecond) 3] =
  (cb, [(mkSim (30 * Millisecond) 3, errCircuitOpen);
        (mkSim (500 * Millisecond) 3, errCircuitOpen)]).
Proof.
  apply (Execute_run_refused_while_open sim_clock
           {| maxFailures := 3; resetTimeout := 1 * Second; state := StateOpen;
              failures := 3; lastFailTime := 21 * Millisecond |}
           failing_op [mkSim (30 * Millisecond) 3; mkSim (500 * Millisecond) 3]).
  - reflexivity.
  - repeat constructor; vm_compute; congruence.
Defined.

Lemma Execute_run_at_rest_witness :
  at_rest (fst (Execute_run sim_clock (NewCircuitBreaker 2 (1 * Second)) (flaky 3)
                  [mkSim 0 0; mkSim 0 1; mkSim (2 * Second) 2; mkSim (4 * Second) 3])) /\
  failures (fst (Execute_run sim_clock (NewCircuitBreaker 2 (1 * Second)) (flaky 3)
                   [mkSim 0 0; mkSim 0 1; mkSim (2 * Second) 2; mkSim (4 * Second) 3]))
    <= 0 + Z.of_nat 4.
Proof.
  apply (Execute_run_at_rest sim_clock (NewCircuitBreaker 2 (1 * Second)) (flaky 3)
           [mkSim 0 0; mkSim 0 1; mkSim (2 * Second) 2; mkSim (4 * Second) 3]).
  - unfold at_rest. cbn. repeat split; try discriminate; lia.
  - vm_compute; congruence.
Defined.


End CircuitBreakerFacts.

(** ** Retry *)

Module RetryFacts.
Import GoFacts.

Lemma attempts_backoff_trace (config : RetryConfig) (rs : list error) :
  forall delay, attempts (backoff_trace config rs delay) = rs.
Proof.
  induction rs as [| r rest IH]; intros delay; [reflexivity |].
  destruct rest as [| r' rest']; [reflexivity |].
  change (attempts (backoff_trace config (r :: r' :: rest') delay))
    with (r :: attempts (backoff_trace config (r' :: rest') (nextDelay config delay))).
  now rewrite IH.
Qed.

Lemma sleeps_backoff_trace (config : RetryConfig) (rs : list error) :
  forall delay,
    sleeps (backoff_trace config rs delay) =
    map (fun k => Nat.iter k (nextDelay config) delay) (seq 0 (length rs - 1)).
Proof.
  induction rs as [| r rest IH]; intros delay; [reflexivity |].
  destruct rest as [| r' rest']; [reflexivity |].
  change (sleeps (backoff_trace config (r :: r' :: rest') delay))
    with (delay :: sleeps (backoff_trace config (r' :: rest') (nextDelay config delay))).
  rewrite IH.
  replace (length (r :: r' :: rest') - 1)%nat with (S (length (r' :: rest') - 1))
    by (cbn [length]; lia).
  cbn [seq map Nat.iter nat_rect]. f_equal.
  rewrite <- seq_shift, map_map.
  apply map_ext. intros k. symmetry. apply Nat.iter_succ_r.
Qed.

Section Loop.

Context {W : Type} (ctx : Context W) (config : RetryConfig) (fn : op W).
Hypothesis Hctx : never_cancelled ctx.
Hypothesis Hmax : MaxAttempts config <= max_int64.

(** Without cancellation the loop, entered at attempt number [attempt],
    ends after a run of failures closed by one last attempt, which is
    either the first success or attempt number [MaxAttempts]. *)
Lemma Retry_loop_uncancelled (fuel : nat) :
  forall (attempt : Z) (delay : Duration) (err : error) (w : W) (tr : list event),
    1 <= attempt <= MaxAttempts config ->
    MaxAttempts config - attempt < Z.of_nat fuel ->
    exists w' fs r,
      Retry_loop ctx config fn fuel attempt delay err w tr =
        Some (w', r, tr ++ backoff_trace config (fs ++ [r]) delay) /\
      Forall (fun e => e <> None) fs /\
      Z.of_nat (length fs) <= MaxAttempts config - attempt /\
      (r = None \/ Z.of_nat (length fs) = MaxAttempts config - attempt).
Proof.
  destruct Hctx as [HErr Hwait].
  induction fuel as [| fuel IH]; intros attempt delay err w tr Hatt Hfuel; [lia |].
  cbn [Retry_loop].
  replace (attempt <=? MaxAttempts config) with true by (symmetry; apply Z.leb_le; lia).
  destruct (fn w) as [w1 e1].
  destruct e1 as [x |].
  - rewrite HErr.
    destruct (attempt =? MaxAttempts config) eqn:Elast.
    + apply Z.eqb_eq in Elast.
      exists w1, [], (Some x). cbn. repeat split; [constructor | lia | right; lia].
    + apply Z.eqb_neq in Elast.
      pose proof (Hwait delay w1) as Hfired.
      destruct (ctx_wait ctx delay w1) as [w2 fired]. cbn in Hfired. subst fired.
      rewrite wrap64_id by int64_lia.
      destruct (IH (attempt + 1) (nextDelay config delay) (Some x) w2
                   ((tr ++ [Attempt (Some x)]) ++ [Sleep delay])
                   ltac:(lia) ltac:(lia))
        as (w' & fs & r & Hrun & Hfs & Hlen & Hend).
      exists w', (Some x :: fs), r. rewrite Hrun. repeat split.
      * f_equal. f_equal. rewrite <- !app_assoc. f_equal.
        destruct fs; reflexivity.
      * constructor; [discriminate | assumption].
      * cbn [length]. lia.
      * destruct Hend as [-> | Hend]; [left; reflexivity | right; cbn [length]; lia].
  - exists w1, [], None. cbn. repeat split; [constructor | lia | left; reflexivity].
Qed.

Lemma Retry_uncancelled (w : W) :
  1 <= MaxAttempts config ->
  exists w' fs r,
    Retry ctx config fn w =
      Some (w', r, backoff_trace config (fs ++ [r]) (InitialDelay config)) /\
    Forall (fun e => e <> None) fs /\
    Z.of_nat (length fs) <= MaxAttempts config - 1 /\
    (r = None \/ Z.of_nat (length fs) = MaxAttempts config - 1).
Proof.
  intros HA. unfold Retry.
  destruct (Retry_loop_uncancelled (S (Z.to_nat (MaxAttempts config))) 1
              (InitialDelay config) None w [] ltac:(lia) ltac:(lia))
    as (w' & fs & r & Hrun & H).
  exists w', fs, r. split; [exact Hrun | exact H].
Qed.

(** The fuel [Retry] gives its loop is enough, with or without
    cancellation. *)
Lemma Retry_loop_total (fuel : nat) :
  forall (attempt : Z) (delay : Duration) (err : error) (w : W) (tr : list event),
    1 <= attempt ->
    Z.max 0 (MaxAttempts config - attempt) < Z.of_nat fuel ->
    exists r, Retry_loop ctx config fn fuel attempt delay err w tr = Some r.
Proof.
  induction fuel as [| fuel IH]; intros attempt delay err w tr Hatt Hfuel.
  - cbn [Retry_loop]. lia.
  - cbn [Retry_loop].
    destruct (attempt <=? MaxAttempts config) eqn:Ecmp; [| eexists; reflexivity].
    apply Z.leb_le in Ecmp.
    destruct (fn w) as [w1 [x |]]; [| eexists; reflexivity].
    destruct (ctx_Err ctx w1); [eexists; reflexivity |].
    destruct (attempt =? MaxAttempts config) eqn:Elast; [eexists; reflexivity |].
    apply Z.eqb_neq in Elast.
    destruct (ctx_wait ctx delay w1) as [w2 [|]]; [| eexists; reflexivity].
    rewrite wrap64_id by int64_lia.
    apply IH; lia.
Qed.

End Loop.

(** *** The calls [Retry] makes *)

Section Calls.

Context {W : Type} (ctx : Context W) (config : RetryConfig) (fn : op W).
Hypothesis Hmax : MaxAttempts config <= max_int64.

(** After one failed round the later calls are those of a run that starts
    where the wait of that round ended, with the next delay. *)
Lemma world_before_shift (w : W) (delay : Duration) (k : nat) :
  world_before ctx config fn w delay (S k) =
  world_before ctx config fn (fst (ctx_wait ctx delay (fst (fn w))))
    (nextDelay config delay) k.
Proof.
  induction k as [| k IH]; [reflexivity |].
  change (world_before ctx config fn w delay (S (S k)))
    with (fst (ctx_wait ctx (Nat.iter (S k) (nextDelay config) delay)
                 (fst (fn (world_before ctx config fn w delay (S k)))))).
  rewrite IH, Nat.iter_succ_r. reflexivity.
Qed.

(** The calls from the [(k+1)]-th on are those of a run started where
    that call is made. *)
Lemma world_before_add (w : W) (delay : Duration) (k j : nat) :
  world_before ctx config fn w delay (j + k) =
  world_before ctx config fn (world_before ctx config fn w delay k)
    (Nat.iter k (nextDelay config) delay) j.
Proof.
  induction j as [| j IH]; [reflexivity |].
  cbn [Nat.add world_before]. rewrite IH, Nat.iter_add. reflexivity.
Qed.

Lemma calls_shift (w : W) (delay : Duration) (m : nat) :
  map (fun k => snd (fn (world_before ctx config fn w delay k))) (seq 0 (S m)) =
  snd (fn w) ::
  map (fun k => snd (fn (world_before ctx config fn
                           (fst (ctx_wait ctx delay (fst (fn w))))
                           (nextDelay config delay) k))) (seq 0 m).
Proof.
  cbn [seq map world_before]. f_equal.
  rewrite <- seq_shift, map_map. apply map_ext. intros k.
  now rewrite world_before_shift.
Qed.

(** What the loop does, told by [fn] itself.  Entered at attempt number
    [attempt] in world [w], it calls [fn] in the worlds
    [world_before ... 0 .. m]; the calls before the last failed; and it
    ends in one of four ways: the last call succeeded; the context was
    found cancelled after it; it was attempt number [MaxAttempts]; or the
    wait after it was cut short. *)
Lemma Retry_loop_calls (fuel : nat) :
  forall (attempt : Z) (delay : Duration) (err : error) (w : W) (tr : list event),
    1 <= attempt <= MaxAttempts config ->
    MaxAttempts config - attempt < Z.of_nat fuel ->
    exists m w' res tail,
      Z.of_nat m <= MaxAttempts config - attempt /\
      (forall k, (k < m)%nat ->
         snd (fn (world_before ctx config fn w delay k)) <> None) /\
      Retry_loop ctx config fn fuel attempt delay err w tr =
        Some (w', res,
              tr ++ backoff_trace config
                      (map (fun k => snd (fn (world_before ctx config fn w delay k)))
                         (seq 0 (S m))) delay ++ tail) /\
      let last := fn (world_before ctx config fn w delay m) in
      (tail = [] /\ w' = fst last /\
       ((snd last = None /\ res = None) \/
        (snd last <> None /\ ctx_Err ctx w' <> None /\ res = ctx_Err ctx w') \/
        (snd last <> None /\ ctx_Err ctx w' = None /\
         Z.of_nat m = MaxAttempts config - attempt /\ res = snd last))) \/
      (exists d, tail = [Cancelled d] /\
                 d = Nat.iter m (nextDelay config) delay /\
                 snd last <> None /\
                 ctx_Err ctx (fst last) = None /\
                 snd (ctx_wait ctx d (fst last)) = false /\
                 w' = fst (ctx_wait ctx d (fst last)) /\ res = ctx_Err ctx w').
Proof.
  induction fuel as [| fuel IH]; intros attempt delay err w tr Hatt Hfuel; [lia |].
  cbn [Retry_loop].
  replace (attempt <=? MaxAttempts config) with true by (symmetry; apply Z.leb_le; lia).
  destruct (fn w) as [w1 e1] eqn:Efn.
  assert (E0 : map (fun k => snd (fn (world_before ctx config fn w delay k))) (seq 0 1)
               = [e1]) by (cbn; now rewrite Efn).
  destruct e1 as [x |].
  - destruct (ctx_Err ctx w1) as [c |] eqn:Ec.
    { exists 0%nat, w1, (Some c), []. split; [lia |]. split; [intros k Hk; lia |].
      rewrite E0. split; [cbn; now rewrite ?app_nil_r |].
      cbn [world_before]. rewrite Efn. cbn [fst snd]. left.
      split; [reflexivity |]. split; [reflexivity |]. right. left.
      rewrite Ec. repeat split; discriminate. }
    destruct (attempt =? MaxAttempts config) eqn:Elast.
    { apply Z.eqb_eq in Elast.
      exists 0%nat, w1, (Some x), []. split; [lia |]. split; [intros k Hk; lia |].
      rewrite E0. split; [cbn; now rewrite ?app_nil_r |].
      cbn [world_before]. rewrite Efn. cbn [fst snd]. left.
      split; [reflexivity |]. split; [reflexivity |]. right. right.
      split; [discriminate |]. split; [exact Ec |]. split; [lia | reflexivity]. }
    apply Z.eqb_neq in Elast.
    destruct (ctx_wait ctx delay w1) as [w2 fired] eqn:Ew.
    destruct fired.
    + rewrite wrap64_id by int64_lia.
      destruct (IH (attempt + 1) (nextDelay config delay) (Some x) w2
                   ((tr ++ [Attempt (Some x)]) ++ [Sleep delay])
                   ltac:(lia) ltac:(lia))
        as (m & w' & res & tail & Hm & Hfail & Hrun & Hend).
      assert (Ew2 : fst (ctx_wait ctx delay (fst (fn w))) = w2)
        by (rewrite Efn; cbn [fst]; now rewrite Ew).
      exists (S m), w', res, tail. split; [lia |]. split.
      { intros [| k] Hk; [cbn [world_before]; rewrite Efn; discriminate |].
        rewrite world_before_shift, Ew2. apply Hfail. lia. }
      split.
      { rewrite Hrun. f_equal. f_equal. rewrite (calls_shift w delay (S m)), Ew2, Efn.
        cbn [snd].
        cbn [backoff_trace]. rewrite <- !app_assoc. reflexivity. }
      rewrite world_before_shift, Ew2. cbv zeta in Hend.
      destruct Hend as [(Ht & Hw & Hcase) | (d & Hd & Hcut)];
        [left | right; exists d; rewrite Nat.iter_succ_r; split; [exact Hd | exact Hcut]].
      split; [exact Ht |]. split; [exact Hw |].
      destruct Hcase as [Hs | [Hc | (Hn & Hc & Hl & Hr)]];
        [left; exact Hs | right; left; exact Hc | right; right].
      repeat split; try assumption. lia.
    + exists 0%nat, w2, (ctx_Err ctx w2), [Cancelled delay].
      split; [lia |]. split; [intros k Hk; lia |].
      rewrite E0. split; [cbn; now rewrite <- ?app_assoc |].
      cbn [world_before]. rewrite Efn. cbn [fst snd]. right.
      exists delay. rewrite Ew. cbn [fst snd Nat.iter nat_rect].
      repeat split; try reflexivity; [discriminate | exact Ec].
  - exists 0%nat, w1, None, []. split; [lia |]. split; [intros k Hk; lia |].
    rewrite E0. split; [cbn; now rewrite ?app_nil_r |].
    cbn [world_before]. rewrite Efn. cbn [fst snd]. left.
    split; [reflexivity |]. split; [reflexivity |]. left. split; reflexivity.
Qed.

(** Without cancellation: the calls, the world and the result of [Retry]
    in terms of [fn]. *)
Lemma Retry_calls_uncancelled (w : W) :
  never_cancelled ctx ->
  1 <= MaxAttempts config ->
  exists m,
    Z.of_nat m < MaxAttempts config /\
    (forall k, (k < m)%nat ->
       snd (fn (world_before ctx config fn w (InitialDelay config) k)) <> None) /\
    Retry ctx config fn w =
      Some (fst (fn (world_before ctx config fn w (InitialDelay config) m)),
            snd (fn (world_before ctx config fn w (InitialDelay config) m)),
            backoff_trace config
              (map (fun k => snd (fn (world_before ctx config fn w
                                        (InitialDelay config) k)))
                 (seq 0 (S m))) (InitialDelay config)) /\
    (snd (fn (world_before ctx config fn w (InitialDelay config) m)) = None \/
     Z.of_nat (S m) = MaxAttempts config).
Proof.
  intros [HErr Hfire] HA. unfold Retry.
  destruct (Retry_loop_calls (S (Z.to_nat (MaxAttempts config))) 1
              (InitialDelay config) None w [] ltac:(lia) ltac:(lia))
    as (m & w' & res & tail & Hm & Hfail & Hrun & Hend).
  exists m. split; [lia |]. split; [exact Hfail |].
  cbv zeta in Hend.
  destruct Hend as [(-> & -> & Hcase) | (d & _ & _ & _ & _ & Hcut & _)].
  - rewrite app_nil_r in Hrun. cbn [app] in Hrun.
    destruct Hcase as [[Hn ->] | [(_ & Hc & _) | (Hn & _ & Hlast & ->)]].
    + rewrite Hrun, Hn. split; [reflexivity | left; reflexivity].
    + exfalso. apply Hc. apply HErr.
    + rewrite Hrun. split; [reflexivity | right; lia].
  - rewrite Hfire in Hcut. discriminate.
Qed.

End Calls.

(** [Retry] returns for every policy, operation and context. *)
Lemma Retry_total {W : Type}
    (ctx : Context W) (config : RetryConfig) (fn : op W) (w : W) :
  MaxAttempts config <= max_int64 ->
  exists r, Retry ctx config fn w = Some r.
Proof.
  intros Hmax. unfold Retry.
  apply (Retry_loop_total ctx config fn Hmax); lia.
Qed.

(** C6. With at least one attempt allowed and no cancellation, [Retry]
    returns after calling [fn] some [m + 1] times, at most [MaxAttempts]:
    first in the world it was started in, then each time in the world that
    the previous call and the wait after it left.  Every call but the last
    failed.  [Retry] returns the world and the error of the last call, which
    is the first success or, when all [MaxAttempts] calls failed, the error
    of the final one. *)
Theorem Retry_attempts_until_success_or_limit {W : Type}
    (ctx : Context W) (config : RetryConfig) (fn : op W) (w : W) :
  1 <= MaxAttempts config <= max_int64 ->
  never_cancelled ctx ->
  exists m tr,
    let call := fun k => fn (world_before ctx config fn w (InitialDelay config) k) in
    Z.of_nat (S m) <= MaxAttempts config /\
    Retry ctx config fn w = Some (fst (call m), snd (call m), tr) /\
    attempts tr = map (fun k => snd (call k)) (seq 0 (S m)) /\
    length (attempts tr) = S m /\
    (forall k, (k < m)%nat -> snd (call k) <> None) /\
    (snd (call m) = None \/ Z.of_nat (S m) = MaxAttempts config).
Proof.
  intros [HA Hmax] Hctx.
  destruct (Retry_calls_uncancelled ctx config fn Hmax w Hctx HA)
    as (m & Hm & Hfail & Hrun & Hend).
  eexists m, _. cbv zeta. split; [lia |]. split; [exact Hrun |].
  rewrite attempts_backoff_trace, length_map, length_seq.
  repeat split; assumption.
Qed.

Lemma Retry_attempts_until_success_or_limit_witness :
  exists m tr,
    let call := fun k =>
      flaky 2 (world_before Background DefaultRetryConfig (flaky 2) (mkSim 0 0)
                 (InitialDelay DefaultRetryConfig) k) in
    Z.of_nat (S m) <= MaxAttempts DefaultRetryConfig /\
    Retry Background DefaultRetryConfig (flaky 2) (mkSim 0 0) =
      Some (fst (call m), snd (call m), tr) /\
    attempts tr = map (fun k => snd (call k)) (seq 0 (S m)) /\
    length (attempts tr) = S m /\
    (forall k, (k < m)%nat -> snd (call k) <> None) /\
    (snd (call m) = None \/ Z.of_nat (S m) = MaxAttempts DefaultRetryConfig).
Proof.
  apply (Retry_attempts_until_success_or_limit Background DefaultRetryConfig
           (flaky 2) (mkSim 0 0)).
  - split; vm_compute; congruence.
  - split; reflexivity.
Defined.

(** C5, as stated, fails.  Multiplier 1.5, initial delay 1ns, maximum 1s,
    four attempts that all fail: every product [1 * 1.5] is truncated back
    to 1ns, so the third sleep lasts 1ns where the formula gives
    [min(10^9, 1 * 1.5^2) = 9/4], more than 2ns. *)
Lemma Retry_backoff_truncates :
  let config := {| MaxAttempts := 4; InitialDelay := 1 * Nanosecond;
                   MaxDelay := 1 * Second; BackoffMultiplier := 1.5%float |} in
  (1 <=? BackoffMultiplier config)%float = true /\
  InitialDelay config <= MaxDelay config /\
  1 <= MaxAttempts config /\
  never_cancelled Background /\
  exists w' res tr,
    Retry Background config failing_op (mkSim 0 0) = Some (w', res, tr) /\
    sleeps tr = [1; 1; 1] /\
    (spec_delay config 2 == 9 # 4)%Q /\
    Qfloor (spec_delay config 2) = 2 /\
    ~ (inject_Z 1 == spec_delay config 2)%Q.
Proof.
  cbv zeta. repeat split; try (vm_compute; congruence).
  eexists _, _, _. split; [vm_compute; reflexivity |].
  split; [reflexivity |].
  split; [vm_compute; reflexivity |].
  split; vm_compute; congruence.
Qed.

(** C5, amended.  With at least one attempt allowed and no cancellation,
    the trace of [Retry] is its attempts with exactly one sleep between
    consecutive attempts and none after the last, and sleep [k] (from 0)
    lasts [d_k], where [d_0 = InitialDelay] and [d_(k+1)] is
    [float64(d_k) * BackoffMultiplier] truncated to a [Duration] and
    capped at [MaxDelay]. *)
Theorem Retry_sleeps_follow_nextDelay {W : Type}
    (ctx : Context W) (config : RetryConfig) (fn : op W) (w : W) :
  1 <= MaxAttempts config <= max_int64 ->
  never_cancelled ctx ->
  exists w' res tr,
    Retry ctx config fn w = Some (w', res, tr) /\
    tr = backoff_trace config (attempts tr) (InitialDelay config) /\
    length (sleeps tr) = (length (attempts tr) - 1)%nat /\
    forall k, (k < length (sleeps tr))%nat ->
      nth_error (sleeps tr) k =
        Some (Nat.iter k (nextDelay config) (InitialDelay config)).
Proof.
  intros [HA Hmax] Hctx.
  destruct (Retry_uncancelled ctx config fn Hctx Hmax w HA)
    as (w' & fs & r & Hrun & _).
  exists w', r, (backoff_trace config (fs ++ [r]) (InitialDelay config)).
  rewrite attempts_backoff_trace, sleeps_backoff_trace.
  rewrite length_map, length_seq.
  repeat split; try assumption.
  intros k Hk.
  rewrite nth_error_map, nth_error_seq.
  destruct (Nat.ltb_spec k (length (fs ++ [r]) - 1)); [reflexivity | lia].
Qed.

Lemma Retry_sleeps_follow_nextDelay_witness :
  exists w' res tr,
    Retry Background DefaultRetryConfig failing_op (mkSim 0 0) = Some (w', res, tr) /\
    tr = backoff_trace DefaultRetryConfig (attempts tr) (InitialDelay DefaultRetryConfig) /\
    length (sleeps tr) = (length (attempts tr) - 1)%nat /\
    forall k, (k < length (sleeps tr))%nat ->
      nth_error (sleeps tr) k =
        Some (Nat.iter k (nextDelay DefaultRetryConfig) (InitialDelay DefaultRetryConfig)).
Proof.
  apply (Retry_sleeps_follow_nextDelay Background DefaultRetryConfig
           failing_op (mkSim 0 0)).
  - split; vm_compute; congruence.
  - split; reflexivity.
Defined.

(** The default policy: three failing attempts sleep 100ms, then 200ms,
    as the formula of the specification has it. *)
Lemma Retry_default_policy_delays :
  exists w' res tr,
    Retry Background DefaultRetryConfig failing_op (mkSim 0 0) = Some (w', res, tr) /\
    sleeps tr = [100 * Millisecond; 200 * Millisecond] /\
    (inject_Z (100 * Millisecond) == spec_delay DefaultRetryConfig 0)%Q /\
    (inject_Z (200 * Millisecond) == spec_delay DefaultRetryConfig 1)%Q.
Proof.
  eexists _, _, _. split; [vm_compute; reflexivity |].
  split; [reflexivity |]. split; vm_compute; reflexivity.
Qed.

(** C10. With [MaxAttempts] below 1 the loop body never runs: [Retry]
    returns [nil], [fn] is not called and the world is untouched. *)
Theorem Retry_without_attempts {W : Type}
    (ctx : Context W) (config : RetryConfig) (fn : op W) (w : W) :
  MaxAttempts config < 1 ->
  Retry ctx config fn w = Some (w, None, []).
Proof.
  intros H. unfold Retry. cbn [Retry_loop].
  replace (1 <=? MaxAttempts config) with false by (symmetry; apply Z.leb_gt; lia).
  reflexivity.
Qed.

Lemma Retry_without_attempts_witness :
  Retry Background
    {| MaxAttempts := 0; InitialDelay := 100 * Millisecond;
       MaxDelay := 5 * Second; BackoffMultiplier := 2%float |}
    failing_op (mkSim 0 0) = Some (mkSim 0 0, None, []).
Proof.
  apply (Retry_without_attempts Background
           {| MaxAttempts := 0; InitialDelay := 100 * Millisecond;
              MaxDelay := 5 * Second; BackoffMultiplier := 2%float |}
           failing_op (mkSim 0 0)).
  vm_compute; congruence.
Defined.

(** *** Any context *)

Lemma attempts_snoc (tr : list event) (e : event) :
  attempts (tr ++ [e]) =
    attempts tr ++ match e with Attempt r => [r] | _ => [] end.
Proof. unfold attempts. rewrite flat_map_app. cbn. now rewrite app_nil_r. Qed.

Lemma sleeps_snoc (tr : list event) (e : event) :
  sleeps (tr ++ [e]) = sleeps tr ++ match e with Sleep d => [d] | _ => [] end.
Proof. unfold sleeps. rewrite flat_map_app. cbn. now rewrite app_nil_r. Qed.

Lemma nextDelay_le_MaxDelay (config : RetryConfig) (d : Duration) :
  nextDelay config d <= MaxDelay config.
Proof.
  unfold nextDelay.
  destruct (Z.ltb_spec (MaxDelay config)
              (scaleDelay d (BackoffMultiplier config))); lia.
Qed.

Section AnyContext.

Context {W : Type} (ctx : Context W) (config : RetryConfig) (fn : op W).
Hypothesis Hmax : MaxAttempts config <= max_int64.

(** Whatever the context does, the loop ends after a run of failures
    closed by one last attempt, with sleeps in between; a wait cut short
    by the context may follow a failed last attempt, and nothing follows
    it. *)
Lemma Retry_loop_any_context (fuel : nat) :
  forall (attempt : Z) (delay : Duration) (err : error) (w : W) (tr : list event),
    1 <= attempt <= MaxAttempts config ->
    MaxAttempts config - attempt < Z.of_nat fuel ->
    exists w' res fs r tail,
      Retry_loop ctx config fn fuel attempt delay err w tr =
        Some (w', res, tr ++ backoff_trace config (fs ++ [r]) delay ++ tail) /\
      Forall (fun e => e <> None) fs /\
      Z.of_nat (length fs) <= MaxAttempts config - attempt /\
      (tail = [] \/ exists d, tail = [Cancelled d] /\ r <> None) /\
      (r = None -> res = None /\ tail = []).
Proof.
  induction fuel as [| fuel IH]; intros attempt delay err w tr Hatt Hfuel; [lia |].
  cbn [Retry_loop].
  replace (attempt <=? MaxAttempts config) with true by (symmetry; apply Z.leb_le; lia).
  destruct (fn w) as [w1 [x |]].
  - destruct (ctx_Err ctx w1) as [c |].
    { exists w1, (Some c), [], (Some x), [].
      split; [cbn; now rewrite ?app_nil_r |]. split; [constructor |].
      split; [cbn; lia |]. split; [left; reflexivity | discriminate]. }
    destruct (attempt =? MaxAttempts config) eqn:Elast.
    { exists w1, (Some x), [], (Some x), [].
      split; [cbn; now rewrite ?app_nil_r |]. split; [constructor |].
      split; [cbn; lia |]. split; [left; reflexivity | discriminate]. }
    apply Z.eqb_neq in Elast.
    destruct (ctx_wait ctx delay w1) as [w2 [|]].
    + rewrite wrap64_id by int64_lia.
      destruct (IH (attempt + 1) (nextDelay config delay) (Some x) w2
                   ((tr ++ [Attempt (Some x)]) ++ [Sleep delay])
                   ltac:(lia) ltac:(lia))
        as (w' & res & fs & r & tail & Hrun & Hfs & Hlen & Htail & Hok).
      exists w', res, (Some x :: fs), r, tail. rewrite Hrun.
      split.
      { f_equal. f_equal. rewrite <- !app_assoc. f_equal.
        destruct fs; reflexivity. }
      split; [constructor; [discriminate | assumption] |].
      split; [cbn [length]; lia |].
      split; [exact Htail | exact Hok].
    + exists w2, (ctx_Err ctx w2), [], (Some x), [Cancelled delay].
      split; [cbn; now rewrite <- ?app_assoc |]. split; [constructor |].
      split; [cbn; lia |].
      split; [right; eexists; split; [reflexivity | discriminate] | discriminate].
  - exists w1, None, [], None, [].
    split; [cbn; now rewrite ?app_nil_r |]. split; [constructor |].
    split; [cbn; lia |]. split; [left; reflexivity | auto].
Qed.

Lemma Retry_any_context (w : W) :
  1 <= MaxAttempts config ->
  exists w' res fs r tail,
    Retry ctx config fn w =
      Some (w', res, backoff_trace config (fs ++ [r]) (InitialDelay config) ++ tail) /\
    Forall (fun e => e <> None) fs /\
    Z.of_nat (length fs) <= MaxAttempts config - 1 /\
    (tail = [] \/ exists d, tail = [Cancelled d] /\ r <> None) /\
    (r = None -> res = None /\ tail = []).
Proof.
  intros HA. unfold Retry.
  destruct (Retry_loop_any_context (S (Z.to_nat (MaxAttempts config))) 1
              (InitialDelay config) None w [] ltac:(lia) ltac:(lia))
    as (w' & res & fs & r & tail & Hrun & H).
  exists w', res, fs, r, tail. split; [exact Hrun | exact H].
Qed.

End AnyContext.



(** X12. Whatever the context does, the completed sleeps of [Retry] are the
    first delays of the backoff sequence, there are fewer of them than
    attempts, and every sleep after the first is at most [MaxDelay].  The
    first sleep is [InitialDelay] as configured, capped or not. *)
Theorem Retry_sleeps_bounded {W : Type}
    (ctx : Context W) (config : RetryConfig) (fn : op W) (w : W) :
  1 <= MaxAttempts config <= max_int64 ->
  exists w' res tr,
    Retry ctx config fn w = Some (w', res, tr) /\
    (length (sleeps tr) < length (attempts tr))%nat /\
    forall k d,
      nth_error (sleeps tr) k = Some d ->
      d = Nat.iter k (nextDelay config) (InitialDelay config) /\
      ((1 <= k)%nat -> d <= MaxDelay config).
Proof.
  intros [HA Hmax].
  destruct (Retry_any_context ctx config fn Hmax w HA)
    as (w' & res & fs & r & tail & Hrun & Hfs & Hlen & Htail & Hok).
  exists w', res, (backoff_trace config (fs ++ [r]) (InitialDelay config) ++ tail).
  assert (Hat : attempts (backoff_trace config (fs ++ [r]) (InitialDelay config) ++ tail)
                = fs ++ [r]).
  { unfold attempts at 1. rewrite flat_map_app.
    fold (attempts (backoff_trace config (fs ++ [r]) (InitialDelay config))).
    rewrite attempts_backoff_trace.
    destruct Htail as [-> | (d & -> & _)]; cbn; now rewrite app_nil_r. }
  assert (Hsl : sleeps (backoff_trace config (fs ++ [r]) (InitialDelay config) ++ tail)
                = map (fun k => Nat.iter k (nextDelay config) (InitialDelay config))
                      (seq 0 (length fs))).
  { unfold sleeps at 1. rewrite flat_map_app.
    fold (sleeps (backoff_trace config (fs ++ [r]) (InitialDelay config))).
    rewrite sleeps_backoff_trace, length_app. cbn [length].
    replace (length fs + 1 - 1)%nat with (length fs) by lia.
    destruct Htail as [-> | (d & -> & _)]; cbn; now rewrite app_nil_r. }
  rewrite Hat, Hsl. split; [exact Hrun |]. split.
  - rewrite length_map, length_seq, length_app. cbn [length]. lia.
  - intros k d Hk.
    rewrite nth_error_map, nth_error_seq in Hk.
    destruct (Nat.ltb_spec k (length fs)); [| discriminate].
    cbn in Hk. injection Hk as <-. split; [reflexivity |].
    intros Hk1. destruct k as [| k]; [lia |].
    cbn [Nat.iter nat_rect]. apply nextDelay_le_MaxDelay.
Qed.

Lemma Retry_sleeps_bounded_witness :
  exists w' res tr,
    Retry Background
      {| MaxAttempts := 4; InitialDelay := 10 * Second;
         MaxDelay := 5 * Second; BackoffMultiplier := 2%float |}
      failing_op (mkSim 0 0) = Some (w', res, tr) /\
    (length (sleeps tr) < length (attempts tr))%nat /\
    forall k d,
      nth_error (sleeps tr) k = Some d ->
      d = Nat.iter k
            (nextDelay {| MaxAttempts := 4; InitialDelay := 10 * Second;
                          MaxDelay := 5 * Second; BackoffMultiplier := 2%float |})
            (10 * Second) /\
      ((1 <= k)%nat -> d <= 5 * Second).
Proof.
  apply (Retry_sleeps_bounded Background
           {| MaxAttempts := 4; InitialDelay := 10 * Second;
              MaxDelay := 5 * Second; BackoffMultiplier := 2%float |}
           failing_op (mkSim 0 0)).
  split; vm_compute; congruence.
Defined.

Lemma total_le_count_times (M : Z) (ds : list Duration) :
  0 <= M -> Forall (fun d => d <= M) ds -> total ds <= Z.of_nat (length ds) * M.
Proof.
  intros HM. induction 1 as [| d ds Hd _ IH]; [cbn; lia |].
  cbn [total fold_right length] in *. fold (total ds). nia.
Qed.

(** X24. Time spent sleeping.  With a non-negative maximum delay and at
    least two attempts allowed, the sleeps of one [Retry] add up to at most
    [InitialDelay + (MaxAttempts - 2) * MaxDelay], whatever the multiplier
    and whatever the context does. *)
Theorem Retry_total_sleep_bounded {W : Type}
    (ctx : Context W) (config : RetryConfig) (fn : op W) (w : W) :
  2 <= MaxAttempts config <= max_int64 ->
  0 <= InitialDelay config ->
  0 <= MaxDelay config ->
  exists w' res tr,
    Retry ctx config fn w = Some (w', res, tr) /\
    total (sleeps tr) <=
      InitialDelay config + (MaxAttempts config - 2) * MaxDelay config.
Proof.
  intros [HA Hmax] HD0 HM.
  destruct (Retry_any_context ctx config fn Hmax w ltac:(lia))
    as (w' & res & fs & r & tail & Hrun & Hfs & Hlen & Htail & Hok).
  exists w', res, (backoff_trace config (fs ++ [r]) (InitialDelay config) ++ tail).
  split; [exact Hrun |].
  assert (Hsl : sleeps (backoff_trace config (fs ++ [r]) (InitialDelay config) ++ tail)
                = map (fun k => Nat.iter k (nextDelay config) (InitialDelay config))
                      (seq 0 (length fs))).
  { unfold sleeps at 1. rewrite flat_map_app.
    fold (sleeps (backoff_trace config (fs ++ [r]) (InitialDelay config))).
    rewrite sleeps_backoff_trace, length_app. cbn [length].
    replace (length fs + 1 - 1)%nat with (length fs) by lia.
    destruct Htail as [-> | (d & -> & _)]; cbn; now rewrite app_nil_r. }
  rewrite Hsl.
  destruct (length fs) as [| n] eqn:En; [cbn; nia |].
  cbn [seq map Nat.iter nat_rect total fold_right].
  fold (total (map (fun k => Nat.iter k (nextDelay config) (InitialDelay config))
                   (seq 1 n))).
  pose proof (total_le_count_times (MaxDelay config)
                (map (fun k => Nat.iter k (nextDelay config) (InitialDelay config))
                     (seq 1 n)) HM) as Hb.
  rewrite length_map, length_seq in Hb.
  assert (Hall : Forall (fun d => d <= MaxDelay config)
                   (map (fun k => Nat.iter k (nextDelay config) (InitialDelay config))
                        (seq 1 n))).
  { apply Forall_map. apply List.Forall_forall. intros k Hk. apply in_seq in Hk.
    destruct k as [| k]; [lia |]. cbn [Nat.iter nat_rect]. apply nextDelay_le_MaxDelay. }
  specialize (Hb Hall). nia.
Qed.

Lemma Retry_total_sleep_bounded_witness :
  exists w' res tr,
    Retry Background DefaultRetryConfig failing_op (mkSim 0 0) = Some (w', res, tr) /\
    total (sleeps tr) <=
      InitialDelay DefaultRetryConfig
      + (MaxAttempts DefaultRetryConfig - 2) * MaxDelay DefaultRetryConfig.
Proof.
  apply (Retry_total_sleep_bounded Background DefaultRetryConfig failing_op (mkSim 0 0)).
  - split; vm_compute; congruence.
  - vm_compute; congruence.
  - vm_compute; congruence.
Defined.

(** X13. [Retry] does not look at the context before the first attempt:
    with at least one attempt allowed, [fn] is called once even when the
    context is already cancelled.  If that call succeeds, [Retry] returns
    [nil]; if it fails, [Retry] returns the error of the context, not the
    one [fn] returned, and neither sleeps nor calls [fn] again. *)
Theorem Retry_cancelled_context_one_attempt {W : Type}
    (ctx : Context W) (config : RetryConfig) (fn : op W) (w : W) :
  1 <= MaxAttempts config ->
  (snd (fn w) = None ->
   Retry ctx config fn w = Some (fst (fn w), None, [Attempt None])) /\
  (forall e c,
      snd (fn w) = Some e ->
      ctx_Err ctx (fst (fn w)) = Some c ->
      Retry ctx config fn w = Some (fst (fn w), Some c, [Attempt (Some e)])).
Proof.
  intros HA. unfold Retry. cbn [Retry_loop].
  replace (1 <=? MaxAttempts config) with true by (symmetry; apply Z.leb_le; lia).
  destruct (fn w) as [w1 r]. cbn [fst snd]. split.
  - intros ->. reflexivity.
  - intros e c -> Hc. rewrite Hc. reflexivity.
Qed.

Lemma Retry_cancelled_context_one_attempt_witness :
  Retry {| ctx_Err := fun _ : Sim => Some "context canceled"%string;
           ctx_wait := fun d w => (w, false) |}
        DefaultRetryConfig failing_op (mkSim 0 0) =
    Some (mkSim (1 * Millisecond) 1, Some "context canceled"%string,
          [Attempt (Some "boom"%string)]).
Proof.
  refine (proj2 (Retry_cancelled_context_one_attempt
                   {| ctx_Err := fun _ : Sim => Some "context canceled"%string;
                      ctx_wait := fun d w => (w, false) |}
                   DefaultRetryConfig failing_op (mkSim 0 0) _)
                "boom"%string "context canceled"%string _ _).
  - vm_compute; congruence.
  - reflexivity.
  - reflexivity.
Defined.

End RetryFacts.

(** ** Retry around a circuit breaker *)

Module CompositionFacts.
Import GoFacts CircuitBreakerFacts RetryFacts.

Section Guarded.

Context {W : Type} (clock : W -> Time) (ctx : Context W) (config : RetryConfig).

Lemma with_breaker_never_cancelled :
  never_cancelled ctx -> never_cancelled (with_breaker ctx).
Proof.
  intros [HErr Hfire]. split.
  - intros [cb w]. cbn. apply HErr.
  - intros d [cb w]. cbn. specialize (Hfire d w).
    destruct (ctx_wait ctx d w) as [w1 fired]. exact Hfire.
Qed.

Lemma with_breaker_wait (d : Duration) (cb : CircuitBreaker) (w : W) :
  fst (ctx_wait (with_breaker ctx) d (cb, w)) = (cb, fst (ctx_wait ctx d w)).
Proof. cbn. destruct (ctx_wait ctx d w). reflexivity. Qed.

Lemma guarded_refused (cb : CircuitBreaker) (fn : op W) (w : W) :
  state cb = StateOpen ->
  Since clock w (lastFailTime cb) <= resetTimeout cb ->
  guarded clock fn (cb, w) = ((cb, w), errCircuitOpen).
Proof.
  intros Hs Hw. unfold guarded. rewrite Execute_rejected; [reflexivity |].
  unfold admission. rewrite Hs. cbn [CircuitState_eqb].
  replace (resetTimeout cb <? Since clock w (lastFailTime cb)) with false
    by (symmetry; apply Z.ltb_ge; exact Hw).
  reflexivity.
Qed.

(** While the timeout of an open breaker has not passed at the attempts
    made so far, the loop has only waited: the breaker is as it was and
    the world is the one the waits left. *)
Lemma world_before_refused (cb : CircuitBreaker) (fn : op W) (w : W)
    (delay : Duration) (k : nat) :
  state cb = StateOpen ->
  (forall j, (j < k)%nat ->
     Since clock (world_after_waits ctx config w delay j) (lastFailTime cb)
       <= resetTimeout cb) ->
  world_before (with_breaker ctx) config (guarded clock fn) (cb, w) delay k =
    (cb, world_after_waits ctx config w delay k).
Proof.
  intros Hs. induction k as [| k IH]; intros Hw; [reflexivity |].
  cbn [world_before world_after_waits].
  rewrite IH by (intros j Hj; apply Hw; lia).
  rewrite guarded_refused by (try exact Hs; apply Hw; lia).
  cbn [fst]. apply with_breaker_wait.
Qed.

(** X14. Retrying against an open breaker.  Let the breaker be open, the
    context never cancelled, and the timeout of the breaker not passed at
    any of the [MaxAttempts] attempts, which the loop makes after 0, 1, ...
    waits of the backoff sequence.  Then [RetryWithCircuitBreaker] makes
    all [MaxAttempts] attempts and every one is refused with the
    open-circuit error, which is also what it returns; the breaker is
    unchanged; and the world it leaves is the one that the
    [MaxAttempts - 1] waits alone produce: the operation was never run. *)
Theorem RetryWithCircuitBreaker_open_never_runs
    (cb : CircuitBreaker) (fn : op W) (w : W) :
  state cb = StateOpen ->
  never_cancelled ctx ->
  1 <= MaxAttempts config <= max_int64 ->
  (forall k, Z.of_nat k < MaxAttempts config ->
     Since clock (world_after_waits ctx config w (InitialDelay config) k)
       (lastFailTime cb) <= resetTimeout cb) ->
  RetryWithCircuitBreaker clock ctx cb config fn w =
    Some (cb,
          world_after_waits ctx config w (InitialDelay config)
            (Z.to_nat (MaxAttempts config) - 1),
          errCircuitOpen,
          backoff_trace config
            (repeat errCircuitOpen (Z.to_nat (MaxAttempts config)))
            (InitialDelay config)).
Proof.
  intros Hs Hctx [HA Hmax] Hw.
  destruct (Retry_calls_uncancelled (with_breaker ctx) config (guarded clock fn)
              Hmax (cb, w) (with_breaker_never_cancelled Hctx) HA)
    as (m & Hm & _ & Hrun & Hend).
  assert (Hcall : forall k, Z.of_nat k < MaxAttempts config ->
            guarded clock fn
              (world_before (with_breaker ctx) config (guarded clock fn) (cb, w)
                 (InitialDelay config) k) =
            ((cb, world_after_waits ctx config w (InitialDelay config) k),
             errCircuitOpen)).
  { intros k Hk.
    rewrite world_before_refused by (try exact Hs; intros j Hj; apply Hw; lia).
    apply guarded_refused; [exact Hs | apply Hw; exact Hk]. }
  rewrite (Hcall m Hm) in Hend, Hrun. cbn [fst snd] in Hend, Hrun.
  destruct Hend as [Hend | Hend]; [discriminate |].
  unfold RetryWithCircuitBreaker. rewrite Hrun.
  replace (Z.to_nat (MaxAttempts config) - 1)%nat with m by lia.
  replace (Z.to_nat (MaxAttempts config)) with (S m) by lia.
  replace (repeat errCircuitOpen (S m))
    with (map (fun _ : nat => errCircuitOpen) (seq 0 (S m)))
    by (now rewrite map_const, length_seq).
  do 3 f_equal.
  apply map_ext_in. intros k Hk. apply in_seq in Hk.
  rewrite Hcall by lia. reflexivity.
Qed.

Section Tripping.

Variables (F : Z) (R : Duration) (fn : op W) (w : W).
Hypothesis Hfail : always_fails fn.
Hypothesis HF : 1 <= F < 2 ^ 64.

(** While fewer than [F] calls were made, the breaker lets every call
    through: the loop calls [fn] as [Retry] alone would, and the breaker
    has counted the calls.  The [F]-th failure opens it. *)
Lemma world_before_counting (k : nat) :
  (k <= Z.to_nat F)%nat ->
  exists cb,
    world_before (with_breaker ctx) config (guarded clock fn)
      (NewCircuitBreaker F R, w) (InitialDelay config) k =
      (cb, world_before ctx config fn w (InitialDelay config) k) /\
    maxFailures cb = F /\ resetTimeout cb = R /\
    failures cb = Z.of_nat k /\
    state cb = (if F <=? Z.of_nat k then StateOpen else StateClosed) /\
    (forall k', k = S k' ->
       lastFailTime cb =
         clock (fst (fn (world_before ctx config fn w (InitialDelay config) k')))).
Proof.
  induction k as [| k IH]; intros Hk.
  - exists (NewCircuitBreaker F R). cbn [world_before NewCircuitBreaker
      maxFailures resetTimeout failures state lastFailTime Z.of_nat].
    change (Z.of_nat 0) with 0.
    replace (F <=? 0) with false by (symmetry; apply Z.leb_gt; lia).
    repeat split. discriminate.
  - destruct (IH ltac:(lia)) as (cb & Hwb & HmF & HmR & Hc & Hs & _).
    replace (F <=? Z.of_nat k) with false in Hs by (symmetry; apply Z.leb_gt; lia).
    cbn [world_before]. rewrite Hwb. unfold guarded at 1.
    rewrite (Execute_closed_failure clock cb fn _ Hs (Hfail _) ltac:(lia)).
    cbn [fst]. rewrite with_breaker_wait. eexists. split; [reflexivity |].
    cbn [maxFailures resetTimeout failures state lastFailTime].
    rewrite HmF, HmR, Hc. replace (Z.of_nat k + 1) with (Z.of_nat (S k)) by lia.
    repeat split. intros k' Hk'. injection Hk' as <-. reflexivity.
Qed.

(** What the guarded operation does at the [(k+1)]-th attempt of the loop
    while the breaker is still closed. *)
Lemma guarded_counting (k : nat) :
  (k < Z.to_nat F)%nat ->
  exists cb,
    guarded clock fn
      (world_before (with_breaker ctx) config (guarded clock fn)
         (NewCircuitBreaker F R, w) (InitialDelay config) k) =
      ((cb, fst (fn (world_before ctx config fn w (InitialDelay config) k))),
       snd (fn (world_before ctx config fn w (InitialDelay config) k))) /\
    failures cb = Z.of_nat (S k) /\
    state cb = (if F <=? Z.of_nat (S k) then StateOpen else StateClosed) /\
    lastFailTime cb =
      clock (fst (fn (world_before ctx config fn w (InitialDelay config) k))).
Proof.
  intros Hk.
  destruct (world_before_counting k ltac:(lia)) as (cb & Hwb & HmF & HmR & Hc & Hs & _).
  replace (F <=? Z.of_nat k) with false in Hs by (symmetry; apply Z.leb_gt; lia).
  rewrite Hwb. unfold guarded.
  rewrite (Execute_closed_failure clock cb fn _ Hs (Hfail _) ltac:(lia)).
  eexists. split; [reflexivity |].
  cbn [maxFailures resetTimeout failures state lastFailTime].
  rewrite HmF, Hc. replace (Z.of_nat k + 1) with (Z.of_nat (S k)) by lia.
  repeat split.
Qed.

(** From the [F]-th failure on, while the timeout has not passed at the
    attempts made so far, the loop has only waited. *)
Lemma world_before_tripped (j : nat) :
  (forall i, (i < j)%nat ->
     Since clock
       (world_after_waits ctx config
          (world_before ctx config fn w (InitialDelay config) (Z.to_nat F))
          (Nat.iter (Z.to_nat F) (nextDelay config) (InitialDelay config)) i)
       (clock (fst (fn (world_before ctx config fn w (InitialDelay config)
                          (Z.to_nat F - 1))))) <= R) ->
  exists cb,
    world_before (with_breaker ctx) config (guarded clock fn)
      (NewCircuitBreaker F R, w) (InitialDelay config) (j + Z.to_nat F) =
      (cb,
       world_after_waits ctx config
         (world_before ctx config fn w (InitialDelay config) (Z.to_nat F))
         (Nat.iter (Z.to_nat F) (nextDelay config) (InitialDelay config)) j) /\
    state cb = StateOpen /\ resetTimeout cb = R /\
    failures cb = F /\
    lastFailTime cb =
      clock (fst (fn (world_before ctx config fn w (InitialDelay config)
                        (Z.to_nat F - 1)))).
Proof.
  intros Hw.
  destruct (world_before_counting (Z.to_nat F) ltac:(lia))
    as (cb & Hwb & HmF & HmR & Hc & Hs & Hlast).
  replace (F <=? Z.of_nat (Z.to_nat F)) with true in Hs
    by (symmetry; apply Z.leb_le; lia).
  specialize (Hlast (Z.to_nat F - 1)%nat ltac:(lia)).
  exists cb. rewrite world_before_add, Hwb.
  split; [| repeat split; try assumption; lia].
  apply world_before_refused; [exact Hs |].
  intros i Hi. rewrite Hlast, HmR. apply Hw. exact Hi.
Qed.

End Tripping.

(** X15. Retrying an operation that keeps failing, with a new breaker of
    threshold [F] and a context that is never cancelled.  Write [n] for
    [MaxAttempts] and let the timeout of the breaker not have passed, since
    the [F]-th failure, at any of the attempts after it.  Then the
    operation is run for the first [min(n, F)] attempts, exactly as [Retry]
    alone would run it; every later attempt is refused with the
    open-circuit error and only the waits change the world.  With [F < n]
    the open-circuit error is returned; otherwise the error of the last
    call.  The breaker has counted [min(n, F)] failures and is open, with
    the time of the [F]-th failure, iff [F <= n]. *)
Theorem RetryWithCircuitBreaker_trips_at_threshold
    (F : Z) (R : Duration) (fn : op W) (w : W) :
  always_fails fn ->
  1 <= F < 2 ^ 64 ->
  never_cancelled ctx ->
  1 <= MaxAttempts config <= max_int64 ->
  let n := Z.to_nat (MaxAttempts config) in
  let f := Z.to_nat F in
  let call := fun k => fn (world_before ctx config fn w (InitialDelay config) k) in
  let idle := fun j =>
    world_after_waits ctx config
      (world_before ctx config fn w (InitialDelay config) f)
      (Nat.iter f (nextDelay config) (InitialDelay config)) j in
  (forall j, (j + f < n)%nat ->
     Since clock (idle j) (clock (fst (call (f - 1)%nat))) <= R) ->
  exists cb' w' res tr,
    RetryWithCircuitBreaker clock ctx (NewCircuitBreaker F R) config fn w =
      Some (cb', w', res, tr) /\
    tr = backoff_trace config (attempts tr) (InitialDelay config) /\
    attempts tr =
      map (fun k => snd (call k)) (seq 0 (Nat.min n f)) ++
      repeat errCircuitOpen (n - f) /\
    failures cb' = Z.of_nat (Nat.min n f) /\
    ((n <= f)%nat ->
       w' = fst (call (n - 1)%nat) /\ res = snd (call (n - 1)%nat)) /\
    ((f < n)%nat -> w' = idle (n - f - 1)%nat /\ res = errCircuitOpen) /\
    ((f <= n)%nat ->
       state cb' = StateOpen /\
       lastFailTime cb' = clock (fst (call (f - 1)%nat))) /\
    ((n < f)%nat -> state cb' = StateClosed).
Proof.
  intros Hfail HF Hctx [HA Hmax] n f call idle Hw.
  destruct (Retry_calls_uncancelled (with_breaker ctx) config (guarded clock fn)
              Hmax (NewCircuitBreaker F R, w) (with_breaker_never_cancelled Hctx) HA)
    as (m & Hm & _ & Hrun & Hend).
  assert (Hlate : forall k, (f <= k < n)%nat ->
            guarded clock fn
              (world_before (with_breaker ctx) config (guarded clock fn)
                 (NewCircuitBreaker F R, w) (InitialDelay config) k) =
            ((fst (world_before (with_breaker ctx) config (guarded clock fn)
                     (NewCircuitBreaker F R, w) (InitialDelay config) k),
              idle (k - f)%nat), errCircuitOpen) /\
            state (fst (world_before (with_breaker ctx) config (guarded clock fn)
                     (NewCircuitBreaker F R, w) (InitialDelay config) k)) = StateOpen /\
            failures (fst (world_before (with_breaker ctx) config (guarded clock fn)
                     (NewCircuitBreaker F R, w) (InitialDelay config) k)) = F /\
            lastFailTime (fst (world_before (with_breaker ctx) config (guarded clock fn)
                     (NewCircuitBreaker F R, w) (InitialDelay config) k)) =
              clock (fst (call (f - 1)%nat))).
  { intros k Hk.
    destruct (world_before_tripped F R fn w Hfail HF (k - f)%nat) as
      (cb & Hwb & Hs & HmR & Hc & Hlast).
    { intros i Hi. apply Hw. lia. }
    replace (k - f + Z.to_nat F)%nat with k in Hwb by (subst f; lia).
    rewrite Hwb. cbn [fst]. split; [| repeat split; assumption].
    apply guarded_refused; [exact Hs |].
    rewrite Hlast, HmR. apply Hw. lia. }
  assert (Hne : snd (guarded clock fn
                  (world_before (with_breaker ctx) config (guarded clock fn)
                     (NewCircuitBreaker F R, w) (InitialDelay config) m)) <> None).
  { destruct (Nat.lt_ge_cases m f) as [Hlt | Hge].
    - destruct (guarded_counting F R fn w Hfail HF m Hlt) as (cb & -> & _).
      cbn [snd]. apply Hfail.
    - destruct (Hlate m ltac:(lia)) as (-> & _). discriminate. }
  destruct Hend as [Hend | Hend]; [contradiction |].
  assert (Hn : n = S m) by lia.
  unfold RetryWithCircuitBreaker. rewrite Hrun.
  set (x := guarded clock fn _) in *.
  exists (fst (fst x)), (snd (fst x)), (snd x). eexists.
  split; [destruct x as [[? ?] ?]; reflexivity |].
  rewrite attempts_backoff_trace. split; [reflexivity |].
  split.
  { rewrite <- Hn.
    replace n with (Nat.min n f + (n - f))%nat at 1 by lia.
    rewrite seq_app, map_app. f_equal.
    - apply map_ext_in. intros k Hk. apply in_seq in Hk.
      destruct (guarded_counting F R fn w Hfail HF k ltac:(lia)) as (cb & -> & _).
      reflexivity.
    - replace (repeat errCircuitOpen (n - f))
        with (map (fun _ : nat => errCircuitOpen) (seq (0 + Nat.min n f) (n - f)))
        by (now rewrite map_const, length_seq).
      apply map_ext_in. intros k Hk. apply in_seq in Hk.
      destruct (Hlate k ltac:(lia)) as (-> & _). reflexivity. }
  subst x.
  destruct (Nat.lt_ge_cases m f) as [Hlt | Hge].
  - destruct (guarded_counting F R fn w Hfail HF m Hlt) as (cb & -> & Hc & Hs & Hlast).
    cbn [fst snd]. replace (n - 1)%nat with m by lia.
    split; [rewrite Hc; lia |].
    split; [intros _; split; reflexivity |].
    split; [intros; lia |].
    split.
    + intros Hfn. assert (f = S m) by lia.
      replace (F <=? Z.of_nat (S m)) with true in Hs
        by (symmetry; apply Z.leb_le; lia).
      split; [exact Hs |]. rewrite Hlast. replace (f - 1)%nat with m by lia.
      reflexivity.
    + intros Hnf. rewrite Hs.
      replace (F <=? Z.of_nat (S m)) with false by (symmetry; apply Z.leb_gt; lia).
      reflexivity.
  - destruct (Hlate m ltac:(lia)) as (-> & Hs & Hc & Hlast).
    cbn [fst snd]. replace (n - f - 1)%nat with (m - f)%nat by lia.
    split; [rewrite Hc; lia |].
    split; [intros; lia |].
    split; [intros _; split; reflexivity |].
    split; [intros _; split; assumption | intros; lia].
Qed.

End Guarded.

Lemma RetryWithCircuitBreaker_open_never_runs_witness :
  RetryWithCircuitBreaker sim_clock Background
    {| maxFailures := 3; resetTimeout := 1 * Second; state := StateOpen;
       failures := 3; lastFailTime := 0 |}
    DefaultRetryConfig (flaky 0) (mkSim 0 0) =
  Some ({| maxFailures := 3; resetTimeout := 1 * Second; state := StateOpen;
           failures := 3; lastFailTime := 0 |},
        world_after_waits Background DefaultRetryConfig (mkSim 0 0)
          (InitialDelay DefaultRetryConfig)
          (Z.to_nat (MaxAttempts DefaultRetryConfig) - 1),
        errCircuitOpen,
        backoff_trace DefaultRetryConfig
          (repeat errCircuitOpen (Z.to_nat (MaxAttempts DefaultRetryConfig)))
          (InitialDelay DefaultRetryConfig)).
Proof.
  apply (RetryWithCircuitBreaker_open_never_runs sim_clock Background
           DefaultRetryConfig
           {| maxFailures := 3; resetTimeout := 1 * Second; state := StateOpen;
              failures := 3; lastFailTime := 0 |} (flaky 0) (mkSim 0 0)).
  - reflexivity.
  - split; reflexivity.
  - split; vm_compute; congruence.
  - intros k Hk. cbn [MaxAttempts DefaultRetryConfig] in Hk.
    destruct k as [| [| [| k]]]; [| | | lia]; vm_compute; congruence.
Defined.

Lemma RetryWithCircuitBreaker_trips_at_threshold_witness :
  let n := Z.to_nat (MaxAttempts DefaultRetryConfig) in
  let f := Z.to_nat 2 in
  let call := fun k =>
    failing_op (world_before Background DefaultRetryConfig failing_op (mkSim 0 0)
                  (InitialDelay DefaultRetryConfig) k) in
  let idle := fun j =>
    world_after_waits Background DefaultRetryConfig
      (world_before Background DefaultRetryConfig failing_op (mkSim 0 0)
         (InitialDelay DefaultRetryConfig) f)
      (Nat.iter f (nextDelay DefaultRetryConfig) (InitialDelay DefaultRetryConfig)) j in
  exists cb' w' res tr,
    RetryWithCircuitBreaker sim_clock Background (NewCircuitBreaker 2 (1 * Second))
      DefaultRetryConfig failing_op (mkSim 0 0) = Some (cb', w', res, tr) /\
    tr = backoff_trace DefaultRetryConfig (attempts tr)
           (InitialDelay DefaultRetryConfig) /\
    attempts tr =
      map (fun k => snd (call k)) (seq 0 (Nat.min n f)) ++
      repeat errCircuitOpen (n - f) /\
    failures cb' = Z.of_nat (Nat.min n f) /\
    ((n <= f)%nat ->
       w' = fst (call (n - 1)%nat) /\ res = snd (call (n - 1)%nat)) /\
    ((f < n)%nat -> w' = idle (n - f - 1)%nat /\ res = errCircuitOpen) /\
    ((f <= n)%nat ->
       state cb' = StateOpen /\
       lastFailTime cb' = sim_clock (fst (call (f - 1)%nat))) /\
    ((n < f)%nat -> state cb' = StateClosed).
Proof.
  intros n f call idle.
  apply (RetryWithCircuitBreaker_trips_at_threshold sim_clock Background
           DefaultRetryConfig 2 (1 * Second) failing_op (mkSim 0 0)).
  - intros w. cbn. discriminate.
  - lia.
  - split; reflexivity.
  - split; vm_compute; congruence.
  - intros j Hj. change (j + 2 < 3)%nat in Hj.
    destruct j as [| j]; [| lia]. vm_compute. congruence.
Defined.

End CompositionFacts.

(** ** Worker pool *)

Module WorkerFacts.
Import Worker.

(** [Start] on a running pool changes nothing. *)
Lemma Start_running_noop (wp : WorkerPool) :
  isRunning wp = true -> Start wp = wp.
Proof. intros H. unfold Start. now rewrite H. Qed.

(** [Stop] on a pool that is not running, never started or already
    stopped, changes nothing. *)
Lemma Stop_not_running_noop (wp : WorkerPool) (taken : nat) :
  isRunning wp = false -> Stop wp taken = Ret wp.
Proof. intros H. unfold Stop. now rewrite H. Qed.

(** [Start] has one guard, the running flag: any pool that is not running
    is made running, a stopped one included. *)
Lemma Start_not_running (wp : WorkerPool) :
  isRunning wp = false ->
  isRunning (Start wp) = true /\ jobQueue (Start wp) = jobQueue wp.
Proof. intros H. unfold Start. rewrite H. split; reflexivity. Qed.

(** From [NewWorkerPool] until the first [Stop], the queue is open:
    [Start] keeps the channel and [Submit] never closes it. *)
Lemma NewWorkerPool_queue_open (n : Z) (wp : WorkerPool) :
  NewWorkerPool n = Ret wp -> closed (jobQueue wp) = false /\ isRunning wp = false.
Proof.
  unfold NewWorkerPool. destruct (n <? 0); [discriminate |].
  intros H. injection H as <-. split; reflexivity.
Qed.

Lemma Start_keeps_queue (wp : WorkerPool) : jobQueue (Start wp) = jobQueue wp.
Proof. unfold Start. destruct (isRunning wp); reflexivity. Qed.

Lemma Submit_keeps_queue_open (wp wp' : WorkerPool) (job : option Job) (e : error) :
  closed (jobQueue wp) = false ->
  Submit wp job = Ret (wp', e) ->
  closed (jobQueue wp') = false /\ isRunning wp' = isRunning wp.
Proof.
  intros Hopen. unfold Submit, try_send. rewrite Hopen.
  destruct (isRunning wp) eqn:Hrun; cbn [negb].
  - destruct (length (buf (jobQueue wp)) <? cap (jobQueue wp))%nat; cbn [bind];
      intros H; injection H as <- <-; cbn; auto.
  - intros H; injection H as <- <-. auto.
Qed.

(** With no job queued, or no worker, [Stop] does not depend on the
    schedule. *)
Lemma Stop_schedule_irrelevant (wp : WorkerPool) (taken1 taken2 : nat) :
  buf (jobQueue wp) = [] \/ workers wp = [] ->
  Stop wp taken1 = Stop wp taken2.
Proof.
  intros H. unfold Stop.
  assert (E : forall k, received wp k = O).
  { intros k. unfold received. destruct H as [-> | ->]; [| reflexivity].
    destruct (workers wp); [reflexivity | apply Nat.min_0_r]. }
  now rewrite !E.
Qed.

(** C3 at the failing input: a pool that was started and stopped is
    started again.  [Start] does not refuse: the pool is running again, on
    the queue that [Stop] closed.  Each new worker then receives a [nil]
    job from the closed queue and crashes, and a second [Stop] panics.
    No job was queued, so the schedule of the workers plays no part. *)
Theorem Start_after_Stop_runs_again :
  exists wp0 wp2,
    NewWorkerPool 1 = Ret wp0 /\
    isRunning wp0 = false /\
    isRunning (Start wp0) = true /\
    (forall taken, Stop (Start wp0) taken = Ret wp2) /\
    isRunning wp2 = false /\
    isRunning (Start wp2) = true /\
    closed (jobQueue (Start wp2)) = true /\
    try_recv (jobQueue (Start wp2)) = Some (None, jobQueue (Start wp2)) /\
    start (handlers (Start wp2)) [GotJob None] =
      ([None], Crashed "runtime error: invalid memory address or nil pointer dereference") /\
    (forall taken, Stop (Start wp2) taken = Panic "close of closed channel").
Proof.
  eexists _, _. split; [reflexivity |]. split; [reflexivity |].
  split; [reflexivity |].
  split; [intros taken;
          rewrite (Stop_schedule_irrelevant _ taken 0) by (left; reflexivity);
          reflexivity |].
  repeat split.
Qed.

(** [Submit] on a pool whose queue is open while it is running, as it is
    from [Start] until [Stop].  A pool that is not running refuses with the
    not-running error.  A running pool whose queue holds as many jobs as its
    capacity refuses with the queue-full error and the queue is unchanged.
    A running pool with room appends the job to the queue and returns
    [nil]. *)
Lemma Submit_outcomes (wp : WorkerPool) (job : option Job) :
  (isRunning wp = true -> closed (jobQueue wp) = false) ->
  (exists r, Submit wp job = Ret r) /\
  (isRunning wp = false -> Submit wp job = Ret (wp, errNotRunning)) /\
  (isRunning wp = true ->
   length (buf (jobQueue wp)) = cap (jobQueue wp) ->
   Submit wp job = Ret (wp, errQueueFull)) /\
  (isRunning wp = true ->
   (length (buf (jobQueue wp)) < cap (jobQueue wp))%nat ->
   Submit wp job =
     Ret ({| workers := workers wp;
             jobQueue := {| buf := buf (jobQueue wp) ++ [job];
                            cap := cap (jobQueue wp);
                            closed := false |};
             handlers := handlers wp;
             pool_quit_closed := pool_quit_closed wp;
             isRunning := true |}, None)).
Proof.
  intros Hopen. unfold Submit, try_send.
  destruct (isRunning wp) eqn:Hrun; cbn [negb].
  - rewrite (Hopen eq_refl).
    destruct (Nat.ltb_spec (length (buf (jobQueue wp))) (cap (jobQueue wp))) as [Hlt | Hge];
      cbn [bind].
    + split; [eexists; reflexivity |]. split; [discriminate |].
      split; [intros _ Hfull; lia | intros _ _; reflexivity].
    + split; [eexists; reflexivity |]. split; [discriminate |].
      split; [intros _ _; reflexivity | intros _ Hlt; lia].
  - split; [eexists; reflexivity |]. split; [reflexivity |].
    split; discriminate.
Qed.

(** C7 at the failing input: a pool without workers that was started and
    stopped is started again.  The pool is running, on the queue that
    [Stop] closed, and [Submit] does not return any of its three answers:
    the send in its [select] panics, whatever the job. *)
Theorem Submit_after_restart_panics :
  exists wp0 wp2,
    NewWorkerPool 0 = Ret wp0 /\
    (forall taken, Stop (Start wp0) taken = Ret wp2) /\
    isRunning (Start wp2) = true /\
    length (buf (jobQueue (Start wp2))) = 0%nat /\
    cap (jobQueue (Start wp2)) = 100%nat /\
    closed (jobQueue (Start wp2)) = true /\
    forall job, Submit (Start wp2) job = Panic "send on closed channel".
Proof.
  eexists _, _. split; [reflexivity |].
  split; [intros taken;
          rewrite (Stop_schedule_irrelevant _ taken 0) by (right; reflexivity);
          reflexivity |].
  repeat split.
Qed.

(** C4, as stated, fails.  The email handler asserts that the payload's
    ["to"] entry is a string; on a payload without it the assertion
    panics.  [executeJob] does not catch the panic: the job keeps the
    status it had, the worker's loop ends, and the job queued behind it
    is never handled. *)
Lemma handler_panic_ends_worker :
  executeJob example_handlers (Some email_without_recipient) =
    (Some email_without_recipient,
     Panic "interface conversion: interface {} is nil, not string") /\
  Status email_without_recipient <> "failed"%string /\
  start example_handlers
    [GotJob (Some email_without_recipient); GotJob (Some cleanup_job)] =
    ([Some email_without_recipient],
     Crashed "interface conversion: interface {} is nil, not string").
Proof. repeat split; vm_compute; congruence. Qed.

(** C4, amended.  When the handler of a job returns an error,
    [executeJob] marks the job failed with that error and the worker goes
    on with the next thing it receives.  When the handler panics, the
    panic leaves [executeJob], which sets neither status nor error, and
    the worker's loop ends there. *)
Theorem executeJob_records_errors_only
    (hs : gmap string JobHandler) (handler : JobHandler) (job : Job) :
  hs !! Type_ job = Some handler ->
  (forall job1 e,
      handler job = (job1, Ret (Some e)) ->
      executeJob hs (Some job) = (Some (set_result job1 "failed" (Some e)), Ret tt) /\
      forall rest,
        start hs (GotJob (Some job) :: rest) =
          (Some (set_result job1 "failed" (Some e)) :: fst (start hs rest),
           snd (start hs rest))) /\
  (forall job1 v,
      handler job = (job1, Panic v) ->
      executeJob hs (Some job) = (Some job1, Panic v) /\
      forall rest,
        start hs (GotJob (Some job) :: rest) = ([Some job1], Crashed v)).
Proof.
  intros Hh. split; intros job1 x Hres.
  - assert (E : executeJob hs (Some job) =
                (Some (set_result job1 "failed" (Some x)), Ret tt)).
    { unfold executeJob, JobHandler, error in *. rewrite Hh, Hres. reflexivity. }
    split; [exact E |]. intros rest. cbn [start]. rewrite E.
    destruct (start hs rest). reflexivity.
  - assert (E : executeJob hs (Some job) = (Some job1, Panic x)).
    { unfold executeJob, JobHandler, error in *. rewrite Hh, Hres. reflexivity. }
    split; [exact E |]. intros rest. cbn [start]. rewrite E. reflexivity.
Qed.

Lemma executeJob_records_errors_only_witness :
  executeJob example_handlers (Some email_with_bad_payload) =
    (Some (set_result email_with_bad_payload "failed" (Some "invalid payload format"%string)),
     Ret tt).
Proof.
  refine (proj1 (proj1
    (executeJob_records_errors_only example_handlers EmailJobHandler
       email_with_bad_payload _) email_with_bad_payload
       "invalid payload format"%string _)).
  - vm_compute; reflexivity.
  - reflexivity.
Defined.

(** *** The queue *)

(** A running pool with an open queue takes jobs until the queue is full,
    in order, and refuses the rest. *)
Lemma Submit_run_fills_queue (jobs : list (option Job)) :
  forall wp,
    isRunning wp = true ->
    closed (jobQueue wp) = false ->
    (length (buf (jobQueue wp)) <= cap (jobQueue wp))%nat ->
    let room := (cap (jobQueue wp) - length (buf (jobQueue wp)))%nat in
    exists wp',
      Submit_run wp jobs =
        Ret (wp', repeat None (Nat.min room (length jobs)) ++
                  repeat errQueueFull (length jobs - room)) /\
      jobQueue wp' = {| buf := buf (jobQueue wp) ++ firstn room jobs;
                        cap := cap (jobQueue wp); closed := false |} /\
      workers wp' = workers wp /\ handlers wp' = handlers wp /\
      pool_quit_closed wp' = pool_quit_closed wp /\ isRunning wp' = true.
Proof.
  induction jobs as [| job jobs IH]; intros wp Hrun Hopen Hfit room.
  - exists wp. cbn [Submit_run length]. rewrite Nat.min_0_r. cbn [repeat app].
    rewrite firstn_nil, app_nil_r. destruct wp as [ws [b c cl] hs q r]; cbn in *.
    subst. repeat split.
  - cbn [Submit_run]. unfold Submit, try_send. rewrite Hrun, Hopen. cbn [negb].
    destruct (Nat.ltb_spec (length (buf (jobQueue wp))) (cap (jobQueue wp))) as [Hlt | Hge].
    + cbn [bind fst snd].
      match goal with
      | |- context [Submit_run ?w jobs] =>
          destruct (IH w eq_refl eq_refl) as (wp' & Hr & Hq & Hw & Hh & Hp & Hi)
      end.
      { cbn [jobQueue buf cap]. rewrite length_app. cbn [length]. lia. }
      cbn [jobQueue buf cap workers handlers pool_quit_closed] in Hr, Hq, Hw, Hh, Hp.
      rewrite Hr. cbn [bind fst snd]. exists wp'.
      assert (Hroom : room =
                S (cap (jobQueue wp) - length (buf (jobQueue wp) ++ [job])))
        by (subst room; rewrite length_app; cbn [length]; lia).
      rewrite Hq, Hroom.
      cbn [Nat.min repeat app firstn length Nat.sub].
      rewrite <- app_assoc. cbn [app]. repeat split; assumption.
    + cbn [bind fst snd].
      destruct (IH wp Hrun Hopen Hfit) as (wp' & Hr & Hq & Hw & Hh & Hp & Hi).
      rewrite Hr. cbn [bind fst snd]. exists wp'.
      assert (Hz : (cap (jobQueue wp) - length (buf (jobQueue wp)) = 0)%nat) by lia.
      subst room. rewrite Hz in *.
      cbn [Nat.min repeat app firstn length Nat.sub] in *.
      rewrite Nat.sub_0_r in *. repeat split; assumption.
Qed.

(** X16. Capacity.  The queue of a pool from [NewWorkerPool] holds 100
    jobs, whatever the worker count: on a started pool from which no worker
    has received yet, the first 100 submissions return [nil] and are queued
    in order, and every later one is refused with the queue-full error and
    not queued. *)
Theorem Submit_run_capacity (n : Z) (wp0 : WorkerPool) (jobs : list (option Job)) :
  NewWorkerPool n = Ret wp0 ->
  exists wp',
    Submit_run (Start wp0) jobs =
      Ret (wp', repeat None (Nat.min 100 (length jobs)) ++
                repeat errQueueFull (length jobs - 100)) /\
    buf (jobQueue wp') = firstn 100 jobs /\
    isRunning wp' = true.
Proof.
  unfold NewWorkerPool. destruct (n <? 0); [discriminate |].
  intros H. injection H as <-.
  destruct (Submit_run_fills_queue jobs
              (Start {| workers := repeat None (Z.to_nat n);
                        jobQueue := {| buf := []; cap := 100; closed := false |};
                        handlers := ∅; pool_quit_closed := false;
                        isRunning := false |})
              eq_refl eq_refl ltac:(cbn; lia))
    as (wp' & Hr & Hq & _ & _ & _ & Hi).
  exists wp'. split; [exact Hr |]. split; [| exact Hi].
  rewrite Hq. reflexivity.
Qed.

Lemma Submit_run_capacity_witness :
  exists wp',
    Submit_run (Start {| workers := repeat None 2;
                         jobQueue := {| buf := []; cap := 100; closed := false |};
                         handlers := ∅; pool_quit_closed := false;
                         isRunning := false |})
      [Some cleanup_job; Some email_with_bad_payload] =
      Ret (wp', repeat None (Nat.min 100 2) ++ repeat errQueueFull (2 - 100)) /\
    buf (jobQueue wp') = firstn 100 [Some cleanup_job; Some email_with_bad_payload] /\
    isRunning wp' = true.
Proof.
  apply (Submit_run_capacity 2
           {| workers := repeat None 2;
              jobQueue := {| buf := []; cap := 100; closed := false |};
              handlers := ∅; pool_quit_closed := false;
              isRunning := false |}
           [Some cleanup_job; Some email_with_bad_payload]).
  reflexivity.
Defined.

Lemma recv_run_drains (b : list (option Job)) (c : nat) (cl : bool) :
  recv_run (length b) {| buf := b; cap := c; closed := cl |} =
    (b, {| buf := []; cap := c; closed := cl |}).
Proof.
  induction b as [| job b IH]; [reflexivity |].
  cbn [length recv_run try_recv buf cap closed]. rewrite IH. reflexivity.
Qed.

(** X17. First in, first out.  Jobs submitted to a started pool, no more
    than the queue holds, are all accepted, and the receives that follow
    hand them out in the order of submission; the next receive finds the
    open queue empty and blocks. *)
Theorem Submit_then_receive_in_order (n : Z) (wp0 : WorkerPool)
    (jobs : list (option Job)) :
  NewWorkerPool n = Ret wp0 ->
  (length jobs <= 100)%nat ->
  exists wp',
    Submit_run (Start wp0) jobs = Ret (wp', repeat None (length jobs)) /\
    fst (recv_run (length jobs) (jobQueue wp')) = jobs /\
    try_recv (snd (recv_run (length jobs) (jobQueue wp'))) = None.
Proof.
  unfold NewWorkerPool. destruct (n <? 0); [discriminate |].
  intros H Hlen. injection H as <-.
  destruct (Submit_run_fills_queue jobs
              (Start {| workers := repeat None (Z.to_nat n);
                        jobQueue := {| buf := []; cap := 100; closed := false |};
                        handlers := ∅; pool_quit_closed := false;
                        isRunning := false |})
              eq_refl eq_refl ltac:(cbn; lia))
    as (wp' & Hr & Hq & _).
  cbn [Start isRunning jobQueue workers buf cap length Nat.sub] in Hq.
  exists wp'. split.
  - rewrite Hr. cbn [Start isRunning jobQueue workers buf cap length Nat.sub].
    f_equal. f_equal.
    replace (Nat.min 100 (length jobs)) with (length jobs) by lia.
    replace (length jobs - 100)%nat with 0%nat by lia.
    cbn [repeat]. now rewrite app_nil_r.
  - rewrite Hq. cbn [app]. rewrite firstn_all2 by lia.
    rewrite recv_run_drains. split; reflexivity.
Qed.

Lemma Submit_then_receive_in_order_witness :
  exists wp',
    Submit_run (Start {| workers := repeat None 2;
                         jobQueue := {| buf := []; cap := 100; closed := false |};
                         handlers := ∅; pool_quit_closed := false;
                         isRunning := false |})
      [Some cleanup_job; Some email_with_bad_payload] = Ret (wp', repeat None 2) /\
    fst (recv_run 2 (jobQueue wp')) = [Some cleanup_job; Some email_with_bad_payload] /\
    try_recv (snd (recv_run 2 (jobQueue wp'))) = None.
Proof.
  apply (Submit_then_receive_in_order 2
           {| workers := repeat None 2;
              jobQueue := {| buf := []; cap := 100; closed := false |};
              handlers := ∅; pool_quit_closed := false;
              isRunning := false |}
           [Some cleanup_job; Some email_with_bad_payload]).
  - reflexivity.
  - cbn; lia.
Defined.

(** *** Stopping *)

Lemma stop_all_open (ws : list (option Worker)) :
  Forall (fun w => exists wk, w = Some wk /\ quit_closed wk = false) ws ->
  exists ws',
    stop_all ws = Ret ws' /\
    length ws' = length ws /\
    Forall (fun w => exists wk, w = Some wk /\ quit_closed wk = true) ws'.
Proof.
  induction 1 as [| w ws (wk & -> & Hq) _ (ws' & Hs & Hl & Hc)].
  - exists []. repeat split. constructor.
  - cbn [stop_all stop]. unfold close_signal. rewrite Hq. cbn [bind]. rewrite Hs.
    cbn [bind]. eexists. split; [reflexivity |]. split; [cbn; now rewrite Hl |].
    constructor; [eexists; split; reflexivity | exact Hc].
Qed.

Lemma fresh_workers_open (n : nat) :
  Forall (fun w => exists wk, w = Some wk /\ quit_closed wk = false) (fresh_workers n).
Proof.
  unfold fresh_workers. apply Forall_map. apply Forall_forall.
  intros i _. eexists. split; reflexivity.
Qed.

(** A worker that receives jobs none of which panics goes on to its quit
    signal and returns. *)
Lemma start_returns (hs : gmap string JobHandler) (jobs : list (option Job)) :
  Forall (fun job => snd (executeJob hs job) = Ret tt) jobs ->
  start hs (map GotJob jobs ++ [GotQuit]) =
    (map (fun job => fst (executeJob hs job)) jobs, Returned).
Proof.
  induction 1 as [| job jobs Hjob _ IH]; [reflexivity |].
  cbn [map app start].
  destruct (executeJob hs job) as [j r] eqn:E. cbn [fst snd] in *. subst r.
  rewrite IH. reflexivity.
Qed.

(** A worker that receives a job which panics crashes, at the first such
    job. *)
Lemma start_crashes (hs : gmap string JobHandler) (jobs : list (option Job))
    (rest : list selected) :
  Exists (fun job => exists v, snd (executeJob hs job) = Panic v) jobs ->
  exists js v, start hs (map GotJob jobs ++ rest) = (js, Crashed v).
Proof.
  induction 1 as [job jobs (v & Hv) | job jobs _ (js & v & IH)];
    cbn [map app start].
  - destruct (executeJob hs job) as [j r]. cbn [snd] in Hv. subst r.
    eexists _, _. reflexivity.
  - destruct (executeJob hs job) as [j [u | v']].
    + rewrite IH. eexists _, _. reflexivity.
    + eexists _, _. reflexivity.
Qed.

(** A pool that was created, started and given jobs is running and has
    all its channels open and a worker in every slot, whatever the workers
    have received meanwhile: receiving changes none of this. *)
Lemma Start_and_Submit_stoppable (n : Z) (wp0 wp1 : WorkerPool)
    (jobs : list (option Job)) (errs : list error) :
  NewWorkerPool n = Ret wp0 ->
  Submit_run (Start wp0) jobs = Ret (wp1, errs) ->
  isRunning wp1 = true /\ stoppable wp1 /\
  length (workers wp1) = Z.to_nat n.
Proof.
  unfold NewWorkerPool. destruct (n <? 0); [discriminate |].
  intros H Hsub. injection H as <-.
  destruct (Submit_run_fills_queue jobs
              (Start {| workers := repeat None (Z.to_nat n);
                        jobQueue := {| buf := []; cap := 100; closed := false |};
                        handlers := ∅; pool_quit_closed := false;
                        isRunning := false |})
              eq_refl eq_refl ltac:(cbn; lia))
    as (wp' & Hr & Hq & Hw & Hh & Hp & Hi).
  rewrite Hr in Hsub. injection Hsub as <- _.
  cbn [Start isRunning jobQueue workers buf cap length Nat.sub
       pool_quit_closed app] in Hq, Hw, Hp.
  split; [exact Hi |]. split.
  - unfold stoppable. rewrite Hp, Hq, Hw. cbn [closed].
    repeat split. apply fresh_workers_open.
  - rewrite Hw. unfold fresh_workers.
    now rewrite length_map, length_seq, repeat_length.
Qed.

(** X18. Stopping a running pool that has all its channels open and a
    worker in every slot, while the workers receive up to [taken] of the
    queued jobs before they quit.  If none of the jobs received panics,
    [Stop] returns: the pool is not running, every worker has been told to
    quit, the queue is closed, and the jobs that were not received are
    still in it, in order; from then on [Submit] answers with the
    not-running error and a further [Stop] does nothing.  If one of the
    jobs received panics, be it a [nil] job or a panic of its handler,
    nothing recovers it and [Stop] does not return. *)
Theorem Stop_closes_and_keeps_rest (wp : WorkerPool) (taken : nat) :
  isRunning wp = true ->
  stoppable wp ->
  (Forall (fun job => snd (executeJob (handlers wp) job) = Ret tt)
     (firstn (received wp taken) (buf (jobQueue wp))) ->
   exists wp',
     Stop wp taken = Ret wp' /\
     isRunning wp' = false /\
     pool_quit_closed wp' = true /\
     Forall (fun w => exists wk, w = Some wk /\ quit_closed wk = true) (workers wp') /\
     length (workers wp') = length (workers wp) /\
     handlers wp' = handlers wp /\
     closed (jobQueue wp') = true /\
     cap (jobQueue wp') = cap (jobQueue wp) /\
     buf (jobQueue wp') = skipn (received wp taken) (buf (jobQueue wp)) /\
     (forall job, Submit wp' job = Ret (wp', errNotRunning)) /\
     (forall k, Stop wp' k = Ret wp')) /\
  (Exists (fun job => exists v, snd (executeJob (handlers wp) job) = Panic v)
     (firstn (received wp taken) (buf (jobQueue wp))) ->
   exists v, Stop wp taken = Panic v).
Proof.
  intros Hrun (Hq & Hc & Hws). unfold Stop. rewrite Hrun. cbn [negb].
  unfold close_signal, close_chan. rewrite Hq. cbn [bind closed].
  destruct (stop_all_open _ Hws) as (ws' & Hs & Hl & Hcl).
  rewrite Hs, Hc. cbn [bind]. split.
  - intros Hok. rewrite (start_returns _ _ Hok).
    eexists. split; [reflexivity |].
    cbn [isRunning pool_quit_closed workers handlers jobQueue closed cap buf].
    repeat split; try assumption.
  - intros Hbad. destruct (start_crashes _ _ [GotQuit] Hbad) as (js & v & ->).
    exists v. reflexivity.
Qed.

Lemma Stop_closes_and_keeps_rest_witness :
  exists wp',
    Stop {| workers := fresh_workers 2;
            jobQueue := {| buf := [Some cleanup_job; Some email_with_bad_payload;
                                   Some email_without_recipient];
                           cap := 100; closed := false |};
            handlers := example_handlers;
            pool_quit_closed := false; isRunning := true |} 2 = Ret wp' /\
    isRunning wp' = false /\
    pool_quit_closed wp' = true /\
    Forall (fun w => exists wk, w = Some wk /\ quit_closed wk = true) (workers wp') /\
    length (workers wp') = 2%nat /\
    handlers wp' = example_handlers /\
    closed (jobQueue wp') = true /\
    cap (jobQueue wp') = 100%nat /\
    buf (jobQueue wp') = [Some email_without_recipient] /\
    (forall job, Submit wp' job = Ret (wp', errNotRunning)) /\
    (forall k, Stop wp' k = Ret wp').
Proof.
  refine (proj1 (Stop_closes_and_keeps_rest
            {| workers := fresh_workers 2;
               jobQueue := {| buf := [Some cleanup_job; Some email_with_bad_payload;
                                      Some email_without_recipient];
                              cap := 100; closed := false |};
               handlers := example_handlers;
               pool_quit_closed := false; isRunning := true |} 2 _ _) _).
  - reflexivity.
  - repeat split. apply (fresh_workers_open 2).
  - repeat constructor.
Defined.

(** *** Executing jobs *)

(** X19. What [executeJob] leaves behind.  For a job that is not [nil],
    when [executeJob] returns, the job is marked either failed or
    completed; it is marked completed exactly when a handler is registered
    for its type and that handler returned [nil], and then the job is as
    the handler left it but for the status (an error recorded earlier is
    not cleared).  When [executeJob] panics, a registered handler
    panicked. *)
Theorem executeJob_outcome (hs : gmap string JobHandler) (job : Job)
    (after : option Job) (r : outcome unit) :
  executeJob hs (Some job) = (after, r) ->
  exists job',
    after = Some job' /\
    (r = Ret tt ->
     (Status job' = "failed"%string \/ Status job' = "completed"%string) /\
     (Status job' = "completed"%string <->
      exists handler job1,
        hs !! Type_ job = Some handler /\ handler job = (job1, Ret None) /\
        job' = set_result job1 "completed" (Error job1))) /\
    (forall v, r = Panic v ->
       exists handler, hs !! Type_ job = Some handler /\ handler job = (job', Panic v)).
Proof.
  unfold executeJob, JobHandler, error in *.
  destruct (hs !! Type_ job) as [handler |] eqn:Hh.
  - destruct (handler job) as [job1 [[e |] | v]] eqn:Hres;
      intros H; injection H as <- <-; eexists; (split; [reflexivity |]); split.
    + intros _. split; [left; reflexivity |]. split; [discriminate |].
      intros (h & j1 & Hl & Hr & _). congruence.
    + intros v; discriminate.
    + intros _. split; [right; reflexivity |]. split; [| reflexivity].
      intros _. exists handler, job1. auto.
    + intros v; discriminate.
    + discriminate.
    + intros v' Hv. injection Hv as <-. exists handler. auto.
  - intros H; injection H as <- <-. eexists. split; [reflexivity |]. split.
    + intros _. split; [left; reflexivity |]. split; [discriminate |].
      intros (h & j1 & Hl & _). discriminate.
    + intros v; discriminate.
Qed.

Lemma executeJob_outcome_witness :
  exists job',
    Some (set_result cleanup_job "completed" None) = Some job' /\
    (Ret tt = Ret tt ->
     (Status job' = "failed"%string \/ Status job' = "completed"%string) /\
     (Status job' = "completed"%string <->
      exists handler job1,
        example_handlers !! Type_ cleanup_job = Some handler /\
        handler cleanup_job = (job1, Ret None) /\
        job' = set_result job1 "completed" (Error job1))) /\
    (forall v, Ret tt = Panic v ->
       exists handler,
         example_handlers !! Type_ cleanup_job = Some handler /\
         handler cleanup_job = (job', Panic v)).
Proof.
  apply (executeJob_outcome example_handlers cleanup_job
           (Some (set_result cleanup_job "completed" None)) (Ret tt)).
  vm_compute. reflexivity.
Defined.

(** X20. A worker whose handlers do not panic handles the jobs it
    receives one after the other, in the order received, until it receives
    the quit signal; it then returns, and whatever was still to come is
    left alone.  Without a quit signal it ends up waiting for the next
    job. *)
Theorem start_handles_jobs_until_quit (hs : gmap string JobHandler)
    (jobs : list (option Job)) (rest : list selected) :
  Forall (fun job => snd (executeJob hs job) = Ret tt) jobs ->
  start hs (map GotJob jobs ++ GotQuit :: rest) =
    (map (fun job => fst (executeJob hs job)) jobs, Returned) /\
  start hs (map GotJob jobs) =
    (map (fun job => fst (executeJob hs job)) jobs, Waiting).
Proof.
  induction 1 as [| job jobs Hjob _ [IH1 IH2]]; [split; reflexivity |].
  cbn [map app start].
  destruct (executeJob hs job) as [j r] eqn:E. cbn [fst snd] in *. subst r.
  rewrite IH1, IH2. split; reflexivity.
Qed.

Lemma start_handles_jobs_until_quit_witness :
  start example_handlers
    (map GotJob [Some cleanup_job; Some email_with_bad_payload]
       ++ GotQuit :: [GotJob (Some cleanup_job)]) =
    (map (fun job => fst (executeJob example_handlers job))
       [Some cleanup_job; Some email_with_bad_payload], Returned).
Proof.
  refine (proj1 (start_handles_jobs_until_quit example_handlers
                   [Some cleanup_job; Some email_with_bad_payload]
                   [GotJob (Some cleanup_job)] _)).
  repeat constructor.
Defined.

(** X21. Jobs of a type without a registered handler do not stop the
    worker: each is marked failed with the error naming its type, and the
    worker goes on to the quit signal. *)
Theorem start_without_handler_fails_jobs (hs : gmap string JobHandler)
    (jobs : list Job) :
  Forall (fun job => hs !! Type_ job = None) jobs ->
  start hs (map (fun job => GotJob (Some job)) jobs ++ [GotQuit]) =
    (map (fun job =>
            Some (set_result job "failed"
                    (Some ("no handler for job type: " +:+ Type_ job)))) jobs,
     Returned).
Proof.
  induction 1 as [| job jobs Hjob _ IH]; [reflexivity |].
  cbn [map app start]. unfold executeJob at 1.
  unfold JobHandler, error in *. rewrite Hjob, IH. reflexivity.
Qed.

Lemma start_without_handler_fails_jobs_witness :
  start ∅ (map (fun job => GotJob (Some job)) [cleanup_job] ++ [GotQuit]) =
    ([Some (set_result cleanup_job "failed"
              (Some "no handler for job type: user_cleanup"%string))],
     Returned).
Proof.
  apply (start_without_handler_fails_jobs ∅ [cleanup_job]).
  repeat constructor.
Defined.

(** X22. Registration.  The handler registered last for a type is the one
    [executeJob] uses for jobs of that type, replacing an earlier one;
    jobs of other types are handled as before; and registering touches
    neither the queue, the workers nor the running flag. *)
Theorem RegisterHandler_last_wins (wp : WorkerPool) (jobType : string)
    (h1 h2 : JobHandler) (job : Job) :
  let wp2 := RegisterHandler (RegisterHandler wp jobType h1) jobType h2 in
  (Type_ job = jobType ->
   executeJob (handlers wp2) (Some job) =
     executeJob (<[jobType := h2]> ∅) (Some job)) /\
  (Type_ job <> jobType ->
   executeJob (handlers wp2) (Some job) = executeJob (handlers wp) (Some job)) /\
  jobQueue wp2 = jobQueue wp /\ workers wp2 = workers wp /\
  isRunning wp2 = isRunning wp.
Proof.
  cbv zeta. unfold RegisterHandler. cbn [handlers jobQueue workers isRunning].
  split; [| split; [| repeat split]].
  - intros <-. unfold executeJob, JobHandler, error.
    rewrite !lookup_insert_eq. reflexivity.
  - intros Hne. unfold executeJob, JobHandler, error.
    rewrite !lookup_insert_ne by congruence. reflexivity.
Qed.

Lemma RegisterHandler_last_wins_witness :
  executeJob
    (handlers (RegisterHandler
                 (RegisterHandler
                    {| workers := []; jobQueue := {| buf := []; cap := 100; closed := false |};
                       handlers := ∅; pool_quit_closed := false; isRunning := false |}
                    "email" EmailJobHandler)
                 "email" UserCleanupJobHandler))
    (Some email_without_recipient) =
  executeJob (<["email"%string := UserCleanupJobHandler]> ∅)
    (Some email_without_recipient).
Proof.
  refine (proj1 (RegisterHandler_last_wins
                   {| workers := []; jobQueue := {| buf := []; cap := 100; closed := false |};
                      handlers := ∅; pool_quit_closed := false; isRunning := false |}
                   "email" EmailJobHandler UserCleanupJobHandler
                   email_without_recipient) _).
  reflexivity.
Defined.

(** X23. The email handler never changes the job.  It returns [nil]
    exactly when the payload is a map whose entries ["to"], ["subject"] and
    ["body"] are strings; on a payload that is not a map it returns the
    invalid-payload error; on a map that lacks one of the three strings it
    panics. *)
Theorem EmailJobHandler_outcomes (job : Job) :
  fst (EmailJobHandler job) = job /\
  (snd (EmailJobHandler job) = Ret None <->
   exists m a b c,
     Payload job = IMap m /\
     map_index m "to" = IString a /\
     map_index m "subject" = IString b /\
     map_index m "body" = IString c) /\
  (snd (EmailJobHandler job) = Ret (Some "invalid payload format"%string) <->
   forall m, Payload job <> IMap m) /\
  ((exists v, snd (EmailJobHandler job) = Panic v) <->
   exists m,
     Payload job = IMap m /\
     ~ (exists a b c,
          map_index m "to" = IString a /\
          map_index m "subject" = IString b /\
          map_index m "body" = IString c)).
Proof.
  unfold EmailJobHandler.
  destruct (Payload job) as [| s | z | m] eqn:Hp; cbn [fst snd].
  1-3: split; [reflexivity |]; split; [| split];
    [ split; [discriminate | intros (m & a & b & c & H & _); discriminate]
    | split; [intros _ m; discriminate | reflexivity]
    | split; [intros (v & H); discriminate | intros (m & H & _); discriminate] ].
  split; [reflexivity |].
  destruct (map_index m "to") as [| a | za | ma] eqn:Hto;
    destruct (map_index m "subject") as [| b | zb | mb] eqn:Hsu;
    destruct (map_index m "body") as [| c | zc | mc] eqn:Hbo;
    cbn [assert_string bind];
    (split; [| split]);
    try (split; [discriminate | intros (m' & a' & b' & c' & Hm & H1 & H2 & H3);
                                injection Hm as <-; congruence]);
    try (split; [discriminate | intros H; exfalso; eapply H; reflexivity]);
    try (split; [intros _; eexists; split; [reflexivity |];
                 intros (a' & b' & c' & H1 & H2 & H3); congruence
                | intros _; eexists; reflexivity]).
  - split; [intros _; exists m, a, b, c; auto | reflexivity].
  - split; [intros (v & H); discriminate |].
    intros (m' & Hm & Hn). injection Hm as <-. exfalso. apply Hn.
    exists a, b, c. auto.
Qed.

End WorkerFacts.
